(** * refine-firebase: the client-side query engine and its store glue

    A shallow embedding of [firebaseProvider.ts] (both variants of the
    provider that the repository carries) and the properties of its
    filter evaluator, OR-combinator, sort, pagination, id allocation and
    create path.

    The program is JavaScript, so the embedding starts with the fragment of
    the language's run-time semantics that the provider exercises: values
    with reference identity, property access, truthiness, the coercions
    behind [==], [<] and [Number(..)], [Array.prototype.includes], [Set].

    Scope of the value universe (everything below is stated inside it):
    - data is JSON-like, as a database snapshot is: [undefined], [null],
      booleans, numbers, strings, plain objects and arrays, without cycles;
    - numbers are [NaN] and the integers whose magnitude is at most
      [2^53 - 1], carried as [Z]; among them comparison is exact, and
      addition rounds as the double format does.  Numeric strings are read
      by the full grammar of [StringToNumber]; those that denote a
      fraction, an infinity or an integer beyond [2^53 - 1] are outside
      the universe, as is the sign of zero.  [in_universe] says of a value
      that it is inside, and the properties that rest on coercion to
      numbers or on [+] assume it;
    - objects carry the address at which they were allocated; two objects
      are the same object exactly when the addresses agree.  The provider
      never mutates a record, so an object is identified with the tree
      stored at its address;
    - the fields of an object are listed in enumeration order under
      distinct names; strings are sequences of 8-bit characters;
    - property lookup sees own properties, and [length] and indices of
      arrays and strings.  Members inherited from the built-in prototypes
      (functions such as [toString]) are not values of the universe, and
      an object of the universe has no field of its own called
      [toString]. *)

From Stdlib Require Import ZArith List String Ascii Bool Lia DecimalString.
From Stdlib Require Import Permutation Sorted.
Import ListNotations.

Local Open Scope string_scope.
Local Open Scope Z_scope.

Set Warnings "-register-all".

(* ================================================================== *)
(** ** The run-time fragment *)

Module Js.

(** Addresses of heap-allocated objects. *)
Definition loc := nat.

(** A JavaScript number of the universe. *)
Inductive num : Type :=
| NaN
| Int (z : Z).

Inductive value : Type :=
| VUndef
| VNull
| VBool (b : bool)
| VNum (n : num)
| VStr (s : string)
| VObj (l : loc) (fields : list (string * value))
| VArr (l : loc) (elems : list value).

(** What a [throw] carries: the run-time's [TypeError], or any value that a
    rejected promise was rejected with.  [Promise.reject()] rejects with
    [undefined]. *)
Inductive exn : Type :=
| TypeError
| Reason (v : value).

Inductive result (A : Type) : Type :=
| Ok (a : A)
| Throw (e : exn).
Arguments Ok {A} a.
Arguments Throw {A} e.

Definition bind {A B} (m : result A) (k : A -> result B) : result B :=
  match m with
  | Ok a => k a
  | Throw e => Throw e
  end.

Definition fmap {A B} (f : A -> B) (m : result A) : result B :=
  bind m (fun a => Ok (f a)).

Notation "x <- m ;; k" := (bind m (fun x => k))
  (at level 61, m at next level, right associativity).

(** Evaluate [f] on the elements left to right, stopping at the first
    exception; the shape of [for .. of] loops and of array callbacks. *)
Fixpoint mapM {A B} (f : A -> result B) (l : list A) : result (list B) :=
  match l with
  | [] => Ok []
  | x :: t => y <- f x ;; ys <- mapM f t ;; Ok (y :: ys)
  end.

(** [Array.prototype.filter] with a callback that may throw. *)
Fixpoint filterM {A} (f : A -> result bool) (l : list A) : result (list A) :=
  match l with
  | [] => Ok []
  | x :: t =>
      b <- f x ;; r <- filterM f t ;; Ok (if b then x :: r else r)
  end.

(* ------------------------------------------------------------------ *)
(** *** Numbers and strings *)

Definition num_eqb (a b : num) : bool :=
  match a, b with
  | Int x, Int y => x =? y
  | _, _ => false
  end.

(** The three-way outcome of comparing two numbers; [None] is the
    [undefined] that the language returns when an operand is [NaN]. *)
Definition num_compare (a b : num) : option comparison :=
  match a, b with
  | Int x, Int y => Some (x ?= y)
  | _, _ => None
  end.

(** The integers that a double holds exactly whatever their parity. *)
Definition safe_integer (z : Z) : bool := Z.abs z <=? 2 ^ 53 - 1.

(** Rounding an integer to the nearest double, ties to the even
    significand; below [2^53] nothing is rounded.  (Magnitudes of [2^1024]
    and beyond, which overflow, are outside the universe.) *)
Definition round_double (z : Z) : Z :=
  if Z.abs z <=? 2 ^ 53 then z
  else
    let e := Z.log2 (Z.abs z) - 52 in
    let q := Z.abs z / 2 ^ e in
    let r := Z.abs z mod 2 ^ e in
    let half := 2 ^ (e - 1) in
    let q' := if (half <? r) || ((r =? half) && Z.odd q) then q + 1 else q in
    Z.sgn z * (q' * 2 ^ e).

Definition num_add (a b : num) : num :=
  match a, b with
  | Int x, Int y => Int (round_double (x + y))
  | _, _ => NaN
  end.

Definition num_sub (a b : num) : num :=
  match a, b with
  | Int x, Int y => Int (x - y)
  | _, _ => NaN
  end.

Definition num_mul (a b : num) : num :=
  match a, b with
  | Int x, Int y => Int (x * y)
  | _, _ => NaN
  end.

Definition num_to_string (n : num) : string :=
  match n with
  | NaN => "NaN"
  | Int z => NilZero.string_of_int (Z.to_int z)
  end.

Definition is_white (c : ascii) : bool :=
  match c with
  | " "%char | "009"%char | "010"%char | "011"%char | "012"%char
  | "013"%char | "160"%char => true
  | _ => false
  end.

Fixpoint trim_left (s : string) : string :=
  match s with
  | String c t => if is_white c then trim_left t else s
  | EmptyString => EmptyString
  end.

(** Drops trailing white space: a character is kept when something that is
    kept follows it, or when it is not white space itself. *)
Fixpoint trim_right (s : string) : string :=
  match s with
  | EmptyString => EmptyString
  | String c t =>
      match trim_right t with
      | EmptyString => if is_white c then EmptyString else String c EmptyString
      | t' => String c t'
      end
  end.

Definition digit_of (c : ascii) : option Z :=
  let n := Z.of_nat (nat_of_ascii c) in
  if (48 <=? n) && (n <=? 57) then Some (n - 48) else None.

Fixpoint digits_from (acc : Z) (s : string) : option Z :=
  match s with
  | EmptyString => Some acc
  | String c t =>
      match digit_of c with
      | Some d => digits_from (acc * 10 + d) t
      | None => None
      end
  end.

Definition unsigned_decimal (s : string) : option Z :=
  match s with
  | EmptyString => None
  | _ => digits_from 0 s
  end.

(** The value of [c] as a digit in base 2, 8, 10 or 16. *)
Definition digit_in (base : Z) (c : ascii) : option Z :=
  let n := Z.of_nat (nat_of_ascii c) in
  let d := if (48 <=? n) && (n <=? 57) then Some (n - 48)
           else if (97 <=? n) && (n <=? 102) then Some (n - 87)
           else if (65 <=? n) && (n <=? 70) then Some (n - 55)
           else None in
  match d with
  | Some v => if v <? base then Some v else None
  | None => None
  end.

Fixpoint digits_in (base acc : Z) (s : string) : option Z :=
  match s with
  | EmptyString => Some acc
  | String c t =>
      match digit_in base c with
      | Some d => digits_in base (acc * base + d) t
      | None => None
      end
  end.

Definition unsigned_in (base : Z) (s : string) : option Z :=
  match s with
  | EmptyString => None
  | _ => digits_in base 0 s
  end.

(** [0x..], [0o..], [0b..] and their capitals; they take no sign. *)
Definition non_decimal (s : string) : option Z :=
  match s with
  | String "0"%char (String c t) =>
      if (Ascii.eqb c "x" || Ascii.eqb c "X")%char then unsigned_in 16 t
      else if (Ascii.eqb c "o" || Ascii.eqb c "O")%char then unsigned_in 8 t
      else if (Ascii.eqb c "b" || Ascii.eqb c "B")%char then unsigned_in 2 t
      else None
  | _ => None
  end.

(** The leading decimal digits of [s]: their value on top of [acc], how
    many they are, and what follows them. *)
Fixpoint take_digits (s : string) (acc : Z) (count : nat)
  : Z * nat * string :=
  match s with
  | EmptyString => (acc, count, s)
  | String c t =>
      match digit_of c with
      | Some d => take_digits t (acc * 10 + d) (S count)
      | None => (acc, count, s)
      end
  end.

(** What may follow the mantissa: nothing, or [e] / [E] and a signed run
    of digits. *)
Definition exponent_part (s : string) : option Z :=
  match s with
  | EmptyString => Some 0
  | String c t =>
      if (Ascii.eqb c "e" || Ascii.eqb c "E")%char then
        match t with
        | String "-"%char u => option_map Z.opp (unsigned_decimal u)
        | String "+"%char u => unsigned_decimal u
        | _ => unsigned_decimal t
        end
      else None
  end.

(** [digits . digits? exponent?], [. digits exponent?] and
    [digits exponent?], as a mantissa and a power of ten. *)
Definition unsigned_literal (s : string) : option (Z * Z) :=
  let '(whole, n_whole, rest) := take_digits s 0 0 in
  match rest with
  | String "."%char t =>
      let '(mantissa, n_fraction, rest') := take_digits t whole 0 in
      if (n_whole + n_fraction =? 0)%nat then None
      else option_map (fun e => (mantissa, e - Z.of_nat n_fraction))
                      (exponent_part rest')
  | _ =>
      if (n_whole =? 0)%nat then None
      else option_map (fun e => (whole, e)) (exponent_part rest)
  end.

(** What a string denotes as a number: nothing, an infinity, or
    [mantissa * 10 ^ exponent]. *)
Inductive literal : Type :=
| NotNumeric
| Infinite (negative : bool)
| Decimal (mantissa exponent : Z).

Definition signed_literal (negative : bool) (s : string) : literal :=
  if (s =? "Infinity")%string then Infinite negative
  else
    match unsigned_literal s with
    | Some (m, e) => Decimal (if negative then - m else m) e
    | None => NotNumeric
    end.

(** [StringNumericLiteral]: white space is trimmed at both ends, and
    nothing but white space denotes [0]. *)
Definition parse_literal (s : string) : literal :=
  match trim_right (trim_left s) with
  | EmptyString => Decimal 0 0
  | t =>
      match non_decimal t with
      | Some z => Decimal z 0
      | None =>
          match t with
          | String "-"%char u => signed_literal true u
          | String "+"%char u => signed_literal false u
          | _ => signed_literal false t
          end
      end
  end.

(** The integer that a literal denotes, when it denotes one. *)
Definition literal_integer (l : literal) : option Z :=
  match l with
  | Decimal m e =>
      if 0 <=? e then Some (m * 10 ^ e)
      else if m mod 10 ^ (- e) =? 0 then Some (m / 10 ^ (- e))
      else None
  | _ => None
  end.

(** [StringToNumber].  (A string that denotes a fraction or an infinity is
    outside the universe; it is given [NaN] here, and [numeric_string]
    tells.) *)
Definition string_to_num (s : string) : num :=
  match literal_integer (parse_literal s) with
  | Some z => Int z
  | None => NaN
  end.

(** The strings of the universe: those that denote no number, and those
    that denote a safe integer. *)
Definition numeric_string (s : string) : bool :=
  match parse_literal s with
  | NotNumeric => true
  | l =>
      match literal_integer l with
      | Some z => safe_integer z
      | None => false
      end
  end.

Fixpoint join (sep : string) (l : list string) : string :=
  match l with
  | [] => ""
  | [x] => x
  | x :: t => x ++ sep ++ join sep t
  end.

(** [ToString]; arrays print as [join(",")], in which [null] and
    [undefined] elements print as the empty string. *)
Fixpoint to_string (v : value) : string :=
  match v with
  | VUndef => "undefined"
  | VNull => "null"
  | VBool true => "true"
  | VBool false => "false"
  | VNum n => num_to_string n
  | VStr s => s
  | VObj _ _ => "[object Object]"
  | VArr _ elems =>
      join ","
        (map (fun e =>
                match e with
                | VUndef | VNull => ""
                | _ => to_string e
                end) elems)
  end.

Definition is_object (v : value) : bool :=
  match v with
  | VObj _ _ | VArr _ _ => true
  | _ => false
  end.

(** [ToPrimitive]: objects and arrays fall through [valueOf] to
    [toString]. *)
Definition to_primitive (v : value) : value :=
  if is_object v then VStr (to_string v) else v.

(** [ToNumber], which is also [Number(v)]. *)
Definition to_number (v : value) : num :=
  match to_primitive v with
  | VUndef => NaN
  | VNull => Int 0
  | VBool true => Int 1
  | VBool false => Int 0
  | VNum n => n
  | VStr s => string_to_num s
  | _ => NaN
  end.

(** The values of the universe, on which the coercions above are those of
    the language. *)
Fixpoint in_universe (v : value) : bool :=
  match v with
  | VUndef | VNull | VBool _ | VNum NaN => true
  | VNum (Int z) => safe_integer z
  | VStr s => numeric_string s
  | VObj _ fields =>
      negb (existsb (fun kv => (fst kv =? "toString")%string) fields)
  | VArr _ elems =>
      forallb in_universe elems && numeric_string (to_string v)
  end.

(** [ToBoolean]. *)
Definition truthy (v : value) : bool :=
  match v with
  | VUndef | VNull => false
  | VBool b => b
  | VNum NaN => false
  | VNum (Int z) => negb (z =? 0)
  | VStr s => negb (s =? "")%string
  | VObj _ _ | VArr _ _ => true
  end.

Definition loc_of (v : value) : option loc :=
  match v with
  | VObj l _ | VArr l _ => Some l
  | _ => None
  end.

(** [===]. *)
Definition strict_eq (x y : value) : bool :=
  match x, y with
  | VUndef, VUndef => true
  | VNull, VNull => true
  | VBool a, VBool b => Bool.eqb a b
  | VNum a, VNum b => num_eqb a b
  | VStr a, VStr b => (a =? b)%string
  | (VObj a _ | VArr a _), (VObj b _ | VArr b _) => Nat.eqb a b
  | _, _ => false
  end.

(** [SameValueZero], the equality of [Set] and of
    [Array.prototype.includes]: as [===] except that [NaN] equals itself. *)
Definition same_value_zero (x y : value) : bool :=
  match x, y with
  | VNum NaN, VNum NaN => true
  | _, _ => strict_eq x y
  end.

(** [==] (IsLooselyEqual).  Operands of one type compare as [===];
    [null] and [undefined] equal each other and nothing else; an object
    facing a primitive is replaced by its primitive, a boolean by its
    number, and a number facing a string compares with the string's
    number. *)
Definition loose_eq (x y : value) : bool :=
  match x, y with
  | (VUndef | VNull), (VUndef | VNull) => true
  | (VUndef | VNull), _ => false
  | _, (VUndef | VNull) => false
  | (VObj a _ | VArr a _), (VObj b _ | VArr b _) => Nat.eqb a b
  | _, _ =>
      match to_primitive x, to_primitive y with
      | VStr a, VStr b => (a =? b)%string
      | px, py => num_eqb (to_number px) (to_number py)
      end
  end.

(** The abstract relational comparison behind [<], [>], [<=], [>=]: two
    strings compare by code units, everything else as numbers. *)
Definition js_compare (x y : value) : option comparison :=
  match to_primitive x, to_primitive y with
  | VStr a, VStr b => Some (String.compare a b)
  | px, py => num_compare (to_number px) (to_number py)
  end.

Definition js_lt (x y : value) : bool :=
  match js_compare x y with Some Lt => true | _ => false end.
Definition js_gt (x y : value) : bool :=
  match js_compare x y with Some Gt => true | _ => false end.
Definition js_le (x y : value) : bool :=
  match js_compare x y with Some (Lt | Eq) => true | _ => false end.
Definition js_ge (x y : value) : bool :=
  match js_compare x y with Some (Gt | Eq) => true | _ => false end.

(* ------------------------------------------------------------------ *)
(** *** Property access *)

Fixpoint lookup_field (k : string) (fs : list (string * value))
  : option value :=
  match fs with
  | [] => None
  | (k', v) :: t => if (k =? k')%string then Some v else lookup_field k t
  end.

Definition string_of_nat (i : nat) : string :=
  NilZero.string_of_uint (Nat.to_uint i).

(** The element whose index prints as [k], counting from [i]. *)
Fixpoint lookup_index {A} (k : string) (i : nat) (l : list A) : option A :=
  match l with
  | [] => None
  | x :: t =>
      if (k =? string_of_nat i)%string then Some x
      else lookup_index k (S i) t
  end.

Fixpoint chars (s : string) : list string :=
  match s with
  | EmptyString => []
  | String c t => String c EmptyString :: chars t
  end.

Definition or_undefined (o : option value) : value :=
  match o with
  | Some v => v
  | None => VUndef
  end.

(** [v[k]].  Reading a property of [undefined] or [null] throws; a missing
    property of anything else is [undefined]. *)
Definition get_prop (v : value) (k : string) : result value :=
  match v with
  | VUndef | VNull => Throw TypeError
  | VBool _ | VNum _ => Ok VUndef
  | VStr s =>
      if (k =? "length")%string
      then Ok (VNum (Int (Z.of_nat (String.length s))))
      else Ok (or_undefined (option_map VStr (lookup_index k 0%nat (chars s))))
  | VObj _ fs => Ok (or_undefined (lookup_field k fs))
  | VArr _ elems =>
      if (k =? "length")%string
      then Ok (VNum (Int (Z.of_nat (List.length elems))))
      else Ok (or_undefined (lookup_index k 0%nat elems))
  end.

(** [s.split(".")]: never empty; the empty string splits to [[""]]. *)
Fixpoint split_dot (s : string) : list string :=
  match s with
  | EmptyString => [EmptyString]
  | String c t =>
      if Ascii.eqb c "."%char then EmptyString :: split_dot t
      else
        match split_dot t with
        | h :: r => String c h :: r
        | [] => [String c EmptyString]
        end
  end.

Fixpoint is_substring (needle s : string) : bool :=
  String.prefix needle s
  || match s with
     | EmptyString => false
     | String _ t => is_substring needle t
     end.

(** [c.includes(v)]: [SameValueZero] membership in an array, substring
    search in a string, and a [TypeError] where there is no such method. *)
Definition includes (c v : value) : result bool :=
  match c with
  | VArr _ elems => Ok (existsb (same_value_zero v) elems)
  | VStr s => Ok (is_substring (to_string v) s)
  | _ => Throw TypeError
  end.

(** [Object.values(v)] of a non-null value. *)
Definition object_values (v : value) : list value :=
  match v with
  | VObj _ fs => map snd fs
  | VArr _ elems => elems
  | VStr s => map VStr (chars s)
  | _ => []
  end.

(* ------------------------------------------------------------------ *)
(** *** [Set] and array slicing *)

(** A [Set] is kept as the list of its members in insertion order, which
    is the order in which [forEach] visits them. *)
Definition set_add (s : list value) (x : value) : list value :=
  if existsb (same_value_zero x) s then s else s ++ [x].

Definition new_Set (items : list value) : list value :=
  fold_left set_add items [].

(** [ToIntegerOrInfinity]. *)
Definition to_integer (n : num) : Z :=
  match n with
  | NaN => 0
  | Int z => z
  end.

(** A relative index of [slice]: negative counts from the end, and the
    result is clamped to the array. *)
Definition clamp_index (len rel : Z) : Z :=
  if rel <? 0 then Z.max (len + rel) 0 else Z.min rel len.

(** [l.slice(start, end)]. *)
Definition slice {A} (l : list A) (start end_ : num) : list A :=
  let len := Z.of_nat (List.length l) in
  let k := clamp_index len (to_integer start) in
  let final := clamp_index len (to_integer end_) in
  firstn (Z.to_nat (final - k)) (skipn (Z.to_nat k) l).

(* ------------------------------------------------------------------ *)
(** *** Promises *)

Inductive settled (A : Type) : Type :=
| Fulfilled (a : A)
| Rejected (e : exn).
Arguments Fulfilled {A} a.
Arguments Rejected {A} e.

(** [await p] inside an [async] function: a rejection is thrown. *)
Definition await {A} (p : settled A) : result A :=
  match p with
  | Fulfilled a => Ok a
  | Rejected e => Throw e
  end.

(** What an [async] function leaves behind: the state of the promise it
    returned, where [None] is [undefined], and the reasons of the rejected
    promises that it created and let go of without returning or throwing
    them. *)
Record completion (A : Type) : Type := Completion {
  promise : settled (option A);
  dropped : list exn
}.
Arguments Completion {A} promise dropped.
Arguments promise {A} c.
Arguments dropped {A} c.

End Js.

Import Js.
Local Open Scope list_scope.

(* ================================================================== *)
(** ** The provider *)

(** *** Types of the framework that the provider is written against

    [CrudFilter] is the union of [LogicalFilter], a comparison of one
    field, and [ConditionalFilter], whose operator is ["or"] and whose
    value is the sequence of its child filters.  The type of a
    [LogicalFilter]'s operator excludes ["or"], so the provider's test
    [filter.operator == "or"] separates the two constructors. *)
Inductive CrudFilter : Type :=
| LogicalFilter (field : string) (operator : string) (value : value)
| ConditionalFilter (value : list CrudFilter).

(** [{ field, order }], with [order] one of ["asc"] and ["desc"]. *)
Record CrudSort : Type := {
  sort_field : string;
  sort_order : string
}.

(** [{ current?, pageSize? }]. *)
Record Pagination : Type := {
  current : option num;
  pageSize : option num
}.

(** [{ data, total }], the envelope of [getList]. *)
Record ListResponse : Type := {
  data : list value;
  total : Z
}.

(** [{ data }], the envelope of the other operations. *)
Record DataResponse : Type := {
  data_of : value
}.

(** The database, seen from one operation: what [get(ref(path))] settles
    to, where [None] is a snapshot for which [exists()] is false, and what
    [set(ref(path), v)] settles to. *)
Record Store : Type := {
  db_get : string -> settled (option value);
  db_set : string -> value -> settled unit
}.

Inductive store_call : Type :=
| GetCall (path : string)
| SetCall (path : string) (v : value).

(** *** [applyFilter] *)

(** The [switch] that picks [filterFn]. *)
Definition filterFn (operator : string) (operand v : value) : result bool :=
  if (operator =? "eq")%string then Ok (loose_eq v operand)
  else if (operator =? "ne")%string then Ok (negb (loose_eq v operand))
  else if (operator =? "lt")%string then Ok (js_lt v operand)
  else if (operator =? "gt")%string then Ok (js_gt v operand)
  else if (operator =? "lte")%string then Ok (js_le v operand)
  else if (operator =? "gte")%string then Ok (js_ge v operand)
  else if (operator =? "null")%string then Ok (negb (truthy v))
  else if (operator =? "nnull")%string then Ok (negb (negb (truthy v)))
  else if (operator =? "in")%string then includes operand v
  else if (operator =? "nin")%string then fmap negb (includes operand v)
  else Ok true.

(** The loop [for (let f of path) value = value[f]], from [value = obj]. *)
Fixpoint walk (v : value) (path : list string) : result value :=
  match path with
  | [] => Ok v
  | f :: rest => v' <- get_prop v f ;; walk v' rest
  end.

(** The callback that [applyFilter] hands to [data.filter]: the filter
    evaluator on one record. *)
Definition evaluate (field operator : string) (operand obj : value)
  : result bool :=
  v <- walk obj (split_dot field) ;; filterFn operator operand v.

(** [applyFilter]; [None] is the [undefined] that it returns for an ["or"]
    clause and for absent data. *)
Definition applyFilter (data : option (list value)) (filter : CrudFilter)
  : result (option (list value)) :=
  match filter with
  | ConditionalFilter _ => Ok None
  | LogicalFilter field operator operand =>
      if (operator =? "or")%string then Ok None
      else
        match data with
        | None => Ok None
        | Some d =>
            out <- filterM (evaluate field operator operand) d ;;
            Ok (Some out)
        end
  end.

(** *** [biggestIdPlusOneStrategy] *)

(** [data.map(f)] on whatever the snapshot holds: only an array has the
    method. *)
Definition array_map {B} (f : value -> result B) (data : value)
  : result (list B) :=
  match data with
  | VArr _ elems => mapM f elems
  | _ => Throw TypeError
  end.

(** The reducer [(max, current) => (current > max ? current : max)]. *)
Definition bigger (max current : num) : num :=
  match num_compare current max with
  | Some Gt => current
  | _ => max
  end.

Definition biggestIdPlusOneStrategy (st : Store) (resource : string)
  : settled value :=
  match db_get st resource with
  | Rejected e => Rejected e
  | Fulfilled None => Rejected (Reason (VStr ""))
  | Fulfilled (Some data) =>
      match
        array_map (fun item => id <- get_prop item "id" ;; Ok (to_number id))
                  data
      with
      | Ok ids =>
          Fulfilled (VNum (num_add (fold_left bigger ids (Int 0)) (Int 1)))
      | Throw e => Rejected e
      end
  end.

(** *** [FirebaseDataProvider] *)

(** An id allocator receives the provider, of which it uses [getRef] and
    so the database, and the resource. *)
Definition id_strategy : Type := Store -> string -> settled value.

Record FirebaseDataProvider : Type := {
  database : Store;
  getCreateId : id_strategy
}.

(** The constructor:
    [this.getCreateId = options?.getCreateId || biggestIdPlusOneStrategy]. *)
Definition new_provider (db : Store) (options : option id_strategy)
  : FirebaseDataProvider :=
  {| database := db;
     getCreateId := match options with
                    | Some strategy => strategy
                    | None => biggestIdPlusOneStrategy
                    end |}.

(** The tail that every method shares:
    [try { body } catch (error) { Promise.reject(error); }].  The rejected
    promise made in the handler is not returned, so the method's own
    promise fulfils with [undefined]. *)
Definition try_catch {A} (body : result (option A * list exn))
  : settled (option A) * list exn :=
  match body with
  | Ok (r, d) => (Fulfilled r, d)
  | Throw e => (Fulfilled None, [e])
  end.

(** A method's completion together with the calls that the method itself
    made to the store, in order. *)
Record run (A : Type) : Type := Run {
  outcome : completion A;
  calls : list store_call
}.
Arguments Run {A} outcome calls.
Arguments outcome {A} r.
Arguments calls {A} r.

(** A method whose statements all sit in the [try] block. *)
Definition finish {A} (calls : list store_call)
  (body : result (option A * list exn)) : run A :=
  let '(p, d) := try_catch body in Run (Completion p d) calls.

(** Defining property [k] on an object under construction: an existing
    property keeps its place and takes the new value, a new one goes
    last. *)
Fixpoint set_field (k : string) (v : value) (fs : list (string * value))
  : list (string * value) :=
  match fs with
  | [] => [(k, v)]
  | (k', v') :: t =>
      if (k =? k')%string then (k, v) :: t else (k', v') :: set_field k v t
  end.

Fixpoint enumerate {A} (i : nat) (l : list A) : list (string * A) :=
  match l with
  | [] => []
  | x :: t => (string_of_nat i, x) :: enumerate (S i) t
  end.

(** The own enumerable properties that [{ ...v }] copies. *)
Definition own_properties (v : value) : list (string * value) :=
  match v with
  | VObj _ fs => fs
  | VArr _ elems => enumerate 0 elems
  | VStr s => enumerate 0 (map VStr (chars s))
  | _ => []
  end.

(** [{ ...v }] into a new, empty object: the properties are defined one by
    one in order. *)
Definition spread (v : value) : list (string * value) :=
  fold_left (fun acc kv => set_field (fst kv) (snd kv) acc)
            (own_properties v) [].

(** [createData].  [fresh] is the address at which the object literal
    [{ ...variables, id }] is allocated. *)
Definition createData (this : FirebaseDataProvider) (fresh : loc)
  (resource : string) (variables : value) : run DataResponse :=
  match getCreateId this (database this) resource with
  | Rejected e => finish [] (Throw e)
  | Fulfilled id =>
      let path := (resource ++ "/" ++ to_string id)%string in
      let payload := VObj fresh (set_field "id" id (spread variables)) in
      finish [SetCall path payload]
        (_ <- await (db_set (database this) path payload) ;;
         Ok (Some {| data_of := payload |}, []))
  end.

(** [childOut.flat()]: the arrays are spliced in, and an [undefined] stays
    an element. *)
Definition flat (childOut : list (option (list value))) : list value :=
  flat_map (fun o => match o with
                     | Some l => l
                     | None => [VUndef]
                     end) childOut.

(** The body of [filters.forEach]: one top-level clause applied to
    [outData]. *)
Definition filter_step (outData : option (list value)) (filter : CrudFilter)
  : result (option (list value)) :=
  match filter with
  | ConditionalFilter children =>
      childOut <- mapM (applyFilter outData) children ;;
      let newOut := List.filter truthy (flat childOut) in
      let union := new_Set newOut in
      Ok (Some union)
  | LogicalFilter _ _ _ => applyFilter outData filter
  end.

Fixpoint forEach {S A} (f : S -> A -> result S) (l : list A) (s : S)
  : result S :=
  match l with
  | [] => Ok s
  | x :: t => s' <- f s x ;; forEach f t s'
  end.

(** [if (filters) { ... data = outData; }]. *)
Definition filter_stage (filters : option (list CrudFilter))
  (data : list value) : result (option (list value)) :=
  match filters with
  | None => Ok (Some data)
  | Some fs => forEach filter_step fs (Some data)
  end.

(** The comparator [(a, b) => a[field] < b[field] ? -1 : 1]. *)
Definition comparator (field : string) (a b : value) : result Z :=
  x <- get_prop a field ;; y <- get_prop b field ;;
  Ok (if js_lt x y then -1 else 1).

(** [Array.prototype.sort] belongs to the engine that runs the provider;
    the language leaves its result open when the comparator is not a
    consistent one, and this one never answers [0].  It is a parameter. *)
Definition sort_engine : Type :=
  (value -> value -> result Z) -> list value -> result (list value).

(** [if (sort && sort.length > 0) { ... }]. *)
Definition sort_stage (array_sort : sort_engine)
  (sort : option (list CrudSort)) (data : list value)
  : result (list value) :=
  match sort with
  | Some (key :: _) =>
      sorted <- array_sort (comparator (sort_field key)) data ;;
      Ok (if (sort_order key =? "desc")%string then rev sorted else sorted)
  | _ => Ok data
  end.

(** [x || d] on an optional number. *)
Definition or_else (x : option num) (d : num) : num :=
  match x with
  | Some n => if truthy (VNum n) then n else d
  | None => d
  end.

(** The last block of [getList]: [total], the defaults, [start], [end] and
    [data.slice(start, end)]. *)
Definition paginate (pagination : option Pagination) (data : list value)
  : ListResponse :=
  let total := Z.of_nat (List.length data) in
  let current := or_else (match pagination with
                          | Some p => current p
                          | None => None
                          end) (Int 1) in
  let pageSize := or_else (match pagination with
                           | Some p => pageSize p
                           | None => None
                           end) (Int 10) in
  let start := num_mul (num_sub current (Int 1)) pageSize in
  let end_ := num_mul current pageSize in
  {| data := slice data start end_; total := total |}.

(** What [getList] computes from the records of an existing snapshot. *)
Definition query (array_sort : sort_engine)
  (pagination : option Pagination) (sort : option (list CrudSort))
  (filters : option (list CrudFilter)) (records : list value)
  : result ListResponse :=
  outData <- filter_stage filters records ;;
  match outData with
  | None => Throw TypeError
  | Some filtered =>
      sorted <- sort_stage array_sort sort filtered ;;
      Ok (paginate pagination sorted)
  end.

Definition getList (array_sort : sort_engine) (this : FirebaseDataProvider)
  (resource : string) (pagination : option Pagination)
  (sort : option (list CrudSort)) (filters : option (list CrudFilter))
  : run ListResponse :=
  finish [GetCall resource]
    (snapshot <- await (db_get (database this) resource) ;;
     match snapshot with
     | Some v =>
         r <- query array_sort pagination sort filters (object_values v) ;;
         Ok (Some r, [])
     | None => Ok (None, [Reason VUndef])
     end).

Definition getOne (this : FirebaseDataProvider) (resource : string)
  (id : value) : run DataResponse :=
  let path := (resource ++ "/" ++ to_string id)%string in
  finish [GetCall path]
    (snapshot <- await (db_get (database this) path) ;;
     match snapshot with
     | Some v => Ok (Some {| data_of := v |}, [])
     | None => Ok (None, [Reason (VStr "")])
     end).

(** [getMany]; the array that [filter] builds is allocated at [fresh]. *)
Definition getMany (this : FirebaseDataProvider) (fresh : loc)
  (resource : string) (ids : list value) : run DataResponse :=
  finish [GetCall resource]
    (snapshot <- await (db_get (database this) resource) ;;
     match snapshot with
     | Some (VArr _ elems) =>
         kept <- filterM (fun item => id <- get_prop item "id" ;;
                                      Ok (existsb (same_value_zero id) ids))
                         elems ;;
         Ok (Some {| data_of := VArr fresh kept |}, [])
     | Some _ => Throw TypeError
     | None => Ok (None, [Reason VUndef])
     end).

(** *** The older variant

    [src/firebaseProvider.ts] carries the same provider with one
    difference in [applyFilter]: the [switch] on the operator sits inside
    the [data.filter] callback, after the path has been walked, instead of
    choosing [filterFn] beforehand. *)
Module Inline.

Definition callback (field operator : string) (operand obj : value)
  : result bool :=
  v <- walk obj (split_dot field) ;;
  if (operator =? "eq")%string then Ok (loose_eq v operand)
  else if (operator =? "ne")%string then Ok (negb (loose_eq v operand))
  else if (operator =? "lt")%string then Ok (js_lt v operand)
  else if (operator =? "gt")%string then Ok (js_gt v operand)
  else if (operator =? "lte")%string then Ok (js_le v operand)
  else if (operator =? "gte")%string then Ok (js_ge v operand)
  else if (operator =? "null")%string then Ok (negb (truthy v))
  else if (operator =? "nnull")%string then Ok (negb (negb (truthy v)))
  else if (operator =? "in")%string then includes operand v
  else if (operator =? "nin")%string then fmap negb (includes operand v)
  else Ok true.

Definition applyFilter (data : option (list value)) (filter : CrudFilter)
  : result (option (list value)) :=
  match filter with
  | ConditionalFilter _ => Ok None
  | LogicalFilter field operator operand =>
      if (operator =? "or")%string then Ok None
      else
        match data with
        | None => Ok None
        | Some d =>
            out <- filterM (callback field operator operand) d ;;
            Ok (Some out)
        end
  end.

End Inline.

(* ================================================================== *)
(** ** Vocabulary of the specification *)

(** A record is a mapping from field names to values: an object, or an
    array, whose field names are its indices. *)
Definition is_record (v : value) : bool :=
  match v with
  | VObj _ _ | VArr _ _ => true
  | _ => false
  end.

(** A plain comparison: a clause that is not a composite. *)
Definition is_comparison (f : CrudFilter) : bool :=
  match f with
  | LogicalFilter _ operator _ => negb (operator =? "or")%string
  | ConditionalFilter _ => false
  end.

(** Applying one comparison clause to a candidate set. *)
Definition subset_of (S : list value) (f : CrudFilter)
  : result (list value) :=
  match f with
  | LogicalFilter field operator operand =>
      filterM (evaluate field operator operand) S
  | ConditionalFilter _ => Ok []
  end.

(** Two values are reference-equal when both are objects at one
    address. *)
Definition same_reference (x y : value) : bool :=
  match loc_of x, loc_of y with
  | Some a, Some b => Nat.eqb a b
  | _, _ => false
  end.

(** The union of the subsets with reference-equal entries collapsed: every
    entry stays where it first occurs and removes its later
    occurrences. *)
Definition union_by_reference (subsets : list (list value)) : list value :=
  fold_right
    (fun x acc => x :: List.filter (fun y => negb (same_reference x y)) acc)
    [] (List.concat subsets).

(** A collection in which an address names one object. *)
Definition consistent (S : list value) : Prop :=
  forall x y, In x S -> In y S -> same_reference x y = true -> x = y.

(** The ten operators for which [applyFilter] has a case, and ["or"]. *)
Definition recognized : list string :=
  ["eq"; "ne"; "lt"; "gt"; "lte"; "gte"; "null"; "nnull"; "in"; "nin";
   "or"].

Definition is_recognized (operator : string) : bool :=
  existsb (String.eqb operator) recognized.

(** A reference engine for [Array.prototype.sort]: insertion from the
    left, the new element going in front of the first element that it is
    less than.  Any engine may stand in its place. *)
Fixpoint insert_by (cmp : value -> value -> result Z) (x : value)
  (sorted : list value) : result (list value) :=
  match sorted with
  | [] => Ok [x]
  | y :: t =>
      c <- cmp x y ;;
      if c <? 0 then Ok (x :: y :: t)
      else r <- insert_by cmp x t ;; Ok (y :: r)
  end.

Definition insertion_sort : sort_engine :=
  fun cmp l => forEach (fun acc x => insert_by cmp x acc) l [].


(** Page [k] of a set, for explicit page number and size. *)
Definition page (P : Z) (S : list value) (k : Z) : list value :=
  data (paginate (Some {| current := Some (Int k);
                          pageSize := Some (Int P) |}) S).

(** The page numbers [1 .. n]. *)
Definition page_numbers (n : Z) : list Z :=
  map (fun i => Z.of_nat i) (seq 1 (Z.to_nat n)).

(** [ceil(N / P)]. *)
Definition ceil_div (N P : Z) : Z := (N + P - 1) / P.

(** Adding to an insertion-ordered set, and first-occurrence
    de-duplication, for an equality that is given by a key. *)
Section KeyedDefs.
Context {A : Type} (key : A -> nat).

Definition key_eqb (x y : A) : bool := Nat.eqb (key x) (key y).

Definition add_new (s : list A) (x : A) : list A :=
  if existsb (key_eqb x) s then s else s ++ [x].

Definition keep_first (l : list A) : list A :=
  fold_right
    (fun x acc => x :: List.filter (fun y => negb (key_eqb x y)) acc)
    [] l.
End KeyedDefs.

(** The address of an object; only read on objects. *)
Definition address (v : value) : nat :=
  match loc_of v with
  | Some l => l
  | None => 0%nat
  end.

(** The number that a record's [id] coerces to. *)
Definition id_number (r : value) : num :=
  match get_prop r "id" with
  | Ok v => to_number v
  | Throw _ => NaN
  end.

(** The ids of the records that are numbers after coercion. *)
Definition numeric_ids (records : list value) : list Z :=
  flat_map (fun r => match id_number r with
                     | Int z => [z]
                     | NaN => []
                     end) records.

(** The greatest of [floor] and the members of [l]. *)
Definition greatest (l : list Z) (floor : Z) : Z := fold_left Z.max l floor.

(** The maximum of a list of numbers, when there is one. *)
Definition max_id (ids : list Z) : option Z :=
  match ids with
  | [] => None
  | x :: t => Some (greatest t x)
  end.

(* ================================================================== *)
(** ** Sample data *)

Module Sample.

(** A record without a [meta] key. *)
Definition plain : value := VObj 1%nat [("id", VNum (Int 1))].

(** A record whose [meta] is an object without a [flag] key. *)
Definition bare_meta : value :=
  VObj 2%nat [("id", VNum (Int 2)); ("meta", VObj 3%nat [])].

(** Two records that are equal field by field and live at different
    addresses, and a third one. *)
Definition ann : value := VObj 11%nat [("age", VNum (Int 20))].
Definition ann' : value := VObj 12%nat [("age", VNum (Int 20))].
Definition bob : value := VObj 13%nat [("age", VNum (Int 30))].

Definition people : list value := [ann; ann'; bob].

Definition young_or_twenty : list CrudFilter :=
  [LogicalFilter "age" "lt" (VNum (Int 25));
   LogicalFilter "age" "eq" (VStr "20")].

(** A store whose every path is missing, one whose every call fails, and
    one that holds [v] everywhere and accepts every write. *)
Definition missing : Store :=
  {| db_get := fun _ => Fulfilled None;
     db_set := fun _ _ => Fulfilled tt |}.

Definition failing : Store :=
  {| db_get := fun _ => Rejected (Reason (VStr "offline"));
     db_set := fun _ _ => Rejected (Reason (VStr "offline")) |}.

(** A collection whose only record has a negative id. *)
Definition below_zero : value :=
  VArr 20%nat [VObj 21%nat [("id", VNum (Int (-5)))]].

(** Three records with ids [1], ["7"] and ["n/a"]. *)
Definition posts : value :=
  VArr 30%nat [VObj 31%nat [("id", VNum (Int 1))];
               VObj 32%nat [("id", VStr "7")];
               VObj 33%nat [("id", VStr "n/a")]].

(** The same three records as the database hands them over when their
    keys do not form an array: an object keyed by id. *)
Definition keyed_posts : value :=
  VObj 34%nat [("1", VObj 31%nat [("id", VNum (Int 1))]);
               ("7", VObj 32%nat [("id", VStr "7")]);
               ("new", VObj 33%nat [("id", VStr "n/a")])].

(** What a caller passes to [create], with an id of its own. *)
Definition draft : value :=
  VObj 40%nat [("id", VStr "mine"); ("title", VStr "hello")].

Definition holding (v : value) : Store :=
  {| db_get := fun _ => Fulfilled (Some v);
     db_set := fun _ _ => Fulfilled tt |}.

(** Providers with the default id allocator over these stores. *)
Definition on (db : Store) : FirebaseDataProvider := new_provider db None.

End Sample.

(* ================================================================== *)
(** ** The rest of the provider *)

(** *** [biggestIdPlusOneStrategyIndexing] *)

(** [x + y]: when either primitive is a string the operands are
    concatenated as strings, otherwise they are added as numbers. *)
Definition js_add (x y : value) : value :=
  match to_primitive x, to_primitive y with
  | VStr a, py => VStr (a ++ to_string py)
  | px, VStr b => VStr (to_string px ++ b)
  | px, py => VNum (num_add (to_number px) (to_number py))
  end.

(** [Object.values(data)[0]]. *)
Definition first_value (data : value) : value :=
  match object_values data with
  | x :: _ => x
  | [] => VUndef
  end.

(** The recommended strategy.  [last_by_id resource] is what
    [get(query(ref, orderByChild("id"), limitToLast(1)))] settles to: the
    ordering and the limit are the database's work. *)
Definition biggestIdPlusOneStrategyIndexing
  (last_by_id : string -> settled (option value)) (resource : string)
  : settled value :=
  match last_by_id resource with
  | Rejected e => Rejected e
  | Fulfilled None => Rejected (Reason (VStr ""))
  | Fulfilled (Some data) =>
      match get_prop (first_value data) "id" with
      | Ok highestId => Fulfilled (js_add highestId (VNum (Int 1)))
      | Throw e => Rejected e
      end
  end.

(** *** [createManyData] *)

(** The database after a run of [createData]: [commit db path v] is the
    database once it has acknowledged [set(ref(path), v)]; a write that
    was not made or not acknowledged leaves it as it was. *)
Definition after_create (commit : Store -> string -> value -> Store)
  (db : Store) (r : run DataResponse) : Store :=
  match calls r, promise (outcome r) with
  | [SetCall path payload], Fulfilled (Some _) => commit db path payload
  | _, _ => db
  end.

(** The loop [for (let item of args.variables) await this.createData(..)]:
    the runs of [createData] that were started, and how the loop ended.
    Each object literal of [createData] gets the next address. *)
Fixpoint createMany_loop (commit : Store -> string -> value -> Store)
  (strategy : id_strategy) (db : Store) (fresh : loc) (resource : string)
  (items : list value) : list (run DataResponse) * result unit :=
  match items with
  | [] => ([], Ok tt)
  | item :: rest =>
      let r := createData {| database := db; getCreateId := strategy |}
                          fresh resource item in
      match await (promise (outcome r)) with
      | Throw e => ([r], Throw e)
      | Ok _ =>
          let '(rs, ending) :=
            createMany_loop commit strategy (after_create commit db r)
                            (S fresh) resource rest in
          (r :: rs, ending)
      end
  end.

(** [createManyData]: nothing is returned after the loop, and an exception
    out of the loop goes the way of every handler. *)
Definition createManyData (commit : Store -> string -> value -> Store)
  (this : FirebaseDataProvider) (fresh : loc) (resource : string)
  (variables : list value) : run DataResponse :=
  let '(rs, ending) :=
    createMany_loop commit (getCreateId this) (database this) fresh
                    resource variables in
  let '(p, d) := try_catch (_ <- ending ;; Ok (None, [])) in
  Run (Completion p (flat_map (fun r => dropped (outcome r)) rs ++ d))
      (flat_map calls rs).

(** *** [deleteData], [updateData] and their plural forms *)

(** What [remove(ref(path))] and [update(ref(path), v)] settle to. *)
Record Writer : Type := {
  db_remove : string -> settled unit;
  db_update : string -> value -> settled unit
}.

Inductive write_call : Type :=
| RemoveCall (path : string)
| UpdateCall (path : string) (v : value).

Record write_run (A : Type) : Type := WriteRun {
  write_outcome : completion A;
  write_calls : list write_call
}.
Arguments WriteRun {A} write_outcome write_calls.
Arguments write_outcome {A} w.
Arguments write_calls {A} w.

Definition finish_write {A} (calls : list write_call)
  (body : result (option A * list exn)) : write_run A :=
  let '(p, d) := try_catch body in WriteRun (Completion p d) calls.

Definition deleteData (w : Writer) (resource : string) (id : value)
  : write_run DataResponse :=
  let path := (resource ++ "/" ++ to_string id)%string in
  finish_write [RemoveCall path]
    (_ <- await (db_remove w path) ;; Ok (None, [])).

(** [Promise.all]: fulfilled with all the values when every promise is;
    otherwise rejected (here with the first rejection in array order). *)
Fixpoint promise_all {A} (ps : list (settled A)) : settled (list A) :=
  match ps with
  | [] => Fulfilled []
  | Rejected e :: _ => Rejected e
  | Fulfilled a :: t =>
      match promise_all t with
      | Fulfilled r => Fulfilled (a :: r)
      | Rejected e => Rejected e
      end
  end.

Definition deleteManyData (w : Writer) (resource : string)
  (ids : list value) : write_run DataResponse :=
  let runs := map (deleteData w resource) ids in
  let '(p, d) :=
    try_catch (_ <- await (promise_all
                             (map (fun r => promise (write_outcome r)) runs)) ;;
               Ok (None, [])) in
  WriteRun
    (Completion p (flat_map (fun r => dropped (write_outcome r)) runs ++ d))
    (flat_map write_calls runs).

Definition updateData (w : Writer) (resource : string) (id variables : value)
  : write_run DataResponse :=
  let path := (resource ++ "/" ++ to_string id)%string in
  finish_write [UpdateCall path variables]
    (_ <- await (db_update w path variables) ;;
     Ok (Some {| data_of := variables |}, [])).

(** The envelope of [updateManyData]: [data] is the array into which the
    promises returned by [updateData] were pushed, one per id. *)
Record ManyResponse : Type := {
  data_promises : list (settled (option DataResponse))
}.

Definition updateManyData (w : Writer) (resource : string)
  (ids : list value) (variables : value) : write_run ManyResponse :=
  let runs := map (fun id => updateData w resource id variables) ids in
  WriteRun
    (Completion
       (Fulfilled
          (Some {| data_promises :=
                     map (fun r => promise (write_outcome r)) runs |}))
       (flat_map (fun r => dropped (write_outcome r)) runs))
    (flat_map write_calls runs).

(** [customMethod]: an [async] function whose body is a [throw]. *)
Definition customMethod : settled (option DataResponse) :=
  Rejected (Reason (VStr "FirebaseProvider custom method not implemented")).

(** [getAPIUrl]. *)
Definition getAPIUrl : string := "".

(** *** [FirebaseLiveProvider] *)

Fixpoint string_drop (n : nat) (s : string) : string :=
  match n, s with
  | O, _ => s
  | S n', String _ t => string_drop n' t
  | S _, EmptyString => EmptyString
  end.

(** [s.replace(pattern, replacement)] for a string pattern: the first
    occurrence is replaced. *)
Fixpoint replace_first (pattern replacement s : string) : string :=
  if String.prefix pattern s
  then (replacement ++ string_drop (String.length pattern) s)%string
  else
    match s with
    | EmptyString => EmptyString
    | String c t => String c (replace_first pattern replacement t)
    end.

(** [{ channel }], what the listener hands to the callback. *)
Record LiveEvent : Type := {
  event_channel : string
}.

(** A listener that [onValue] has attached: the handle that detaches it,
    the path it listens at and the event it delivers on every change. *)
Record Listener : Type := {
  handle : nat;
  listens_at : string;
  delivers : LiveEvent
}.

(** What a caller can pass where [subscribe] expects its arguments: the
    arguments object, or (through [getProvider]) the handle that an
    earlier [subscribe] returned. *)
Inductive subscribe_argument : Type :=
| SubscribeArgs (channel : string) (types : list string)
| UnsubscribeFn (h : nat).

(** [subscribe].  The listeners attached so far are threaded through;
    [fresh] is the handle that [onValue] gives out.  A handle has no
    [channel], and [undefined.replace] throws. *)
Definition subscribe (attached : list Listener) (fresh : nat)
  (args : subscribe_argument) : result (nat * list Listener) :=
  match args with
  | SubscribeArgs channel _ =>
      let resource := replace_first "resources/" "" channel in
      Ok (fresh,
          attached ++ [{| handle := fresh;
                          listens_at := resource;
                          delivers := {| event_channel := channel |} |}])
  | UnsubscribeFn _ => Throw TypeError
  end.

(** [unsubscribe(unsub)] calls [unsub()], which detaches the listener. *)
Definition unsubscribe (attached : list Listener) (unsub : nat)
  : list Listener :=
  List.filter (fun l => negb (Nat.eqb (handle l) unsub)) attached.

(** [getProvider] of the live provider: both members are bound to
    [this.subscribe]. *)
Record LiveProvider : Type := {
  live_subscribe :
    list Listener -> nat -> subscribe_argument -> result (nat * list Listener);
  live_unsubscribe :
    list Listener -> nat -> subscribe_argument -> result (nat * list Listener)
}.

Definition live_getProvider : LiveProvider :=
  {| live_subscribe := subscribe;
     live_unsubscribe := subscribe |}.

(** *** Vocabulary for the properties of the rest *)

(** Whether the evaluator answers true on a record. *)
Definition keeps (field operator : string) (operand obj : value) : bool :=
  match evaluate field operator operand obj with
  | Ok true => true
  | _ => false
  end.

(** The value of a record's [age], for the sample records. *)
Definition age_of (r : value) : value :=
  match get_prop r "age" with
  | Ok v => v
  | Throw _ => VUndef
  end.

(** A candidate set, when there is one, holds records of [S] only. *)
Definition within (o : option (list value)) (S : list value) : Prop :=
  match o with
  | Some d => incl d S
  | None => True
  end.

(** The value of a record's [id]. *)
Definition id_of (r : value) : value :=
  match get_prop r "id" with
  | Ok v => v
  | Throw _ => VUndef
  end.

(** The writes that a run of [createManyData] is to make when ids are
    handed out one after the other from [next]. *)
Fixpoint consecutive_writes (resource : string) (next : Z) (fresh : loc)
  (items : list value) : list store_call :=
  match items with
  | [] => []
  | item :: rest =>
      SetCall (resource ++ "/" ++ to_string (VNum (Int next)))%string
              (VObj fresh (set_field "id" (VNum (Int next)) (spread item)))
      :: consecutive_writes resource (next + 1) (S fresh) rest
  end.

(** A database of one collection that grows by every acknowledged write,
    for trying the properties out. *)
Module Growing.

Definition commit (db : Store) (path : string) (v : value) : Store :=
  {| db_get := fun r =>
                 match db_get db r with
                 | Fulfilled (Some (VArr l records)) =>
                     Fulfilled (Some (VArr l (records ++ [v])))
                 | other => other
                 end;
     db_set := db_set db |}.

End Growing.

(* ================================================================== *)
(** ** Vocabulary for loose equality and for sorting *)







(** Two records that differ in [meta.rank]. *)
Module Nested.



End Nested.

(* ================================================================== *)
(** ** The error monad and the list combinators *)

Lemma bind_Ok {A B} (m : result A) (k : A -> result B) (b : B) :
  bind m k = Ok b -> exists a, m = Ok a /\ k a = Ok b.
Proof.
  destruct m as [a | e]; simpl; intro H; [eauto | discriminate].
Qed.

Lemma filterM_pure {A} (f : A -> result bool) (p : A -> bool) (l : list A) :
  (forall x, In x l -> f x = Ok (p x)) ->
  filterM f l = Ok (List.filter p l).
Proof.
  induction l as [| x t IH]; intro H; simpl; [reflexivity |].
  rewrite (H x (or_introl eq_refl)); simpl.
  rewrite IH by (intros y Hy; apply H; right; exact Hy).
  simpl. destruct (p x); reflexivity.
Qed.

Lemma filterM_ext {A} (f g : A -> result bool) (l : list A) :
  (forall x, f x = g x) -> filterM f l = filterM g l.
Proof.
  intro H; induction l as [| x t IH]; simpl; [reflexivity |].
  rewrite H, IH; reflexivity.
Qed.

Lemma filterM_incl {A} (f : A -> result bool) (l r : list A) :
  filterM f l = Ok r -> incl r l.
Proof.
  revert r; induction l as [| x t IH]; simpl; intros r H.
  - injection H as <-. intros y [].
  - apply bind_Ok in H as (b & _ & H).
    apply bind_Ok in H as (r' & Hr' & H).
    injection H as <-.
    specialize (IH _ Hr').
    destruct b; intros y Hy.
    + destruct Hy as [-> | Hy]; [left; reflexivity | right; apply IH, Hy].
    + right; apply IH, Hy.
Qed.

Lemma mapM_app {A B} (f : A -> result B) (l1 l2 : list A) :
  mapM f (l1 ++ l2) =
  (r1 <- mapM f l1 ;; r2 <- mapM f l2 ;; Ok (r1 ++ r2)).
Proof.
  induction l1 as [| x t IH]; simpl.
  - destruct (mapM f l2); reflexivity.
  - destruct (f x) as [y | e]; simpl; [| reflexivity].
    rewrite IH. destruct (mapM f t) as [r1 | e]; simpl; [| reflexivity].
    destruct (mapM f l2); reflexivity.
Qed.

Lemma mapM_ext_in {A B} (f g : A -> result B) (l : list A) :
  (forall x, In x l -> f x = g x) -> mapM f l = mapM g l.
Proof.
  induction l as [| x t IH]; intro H; simpl; [reflexivity |].
  rewrite (H x (or_introl eq_refl)).
  rewrite IH by (intros y Hy; apply H; right; exact Hy).
  reflexivity.
Qed.

Lemma mapM_fmap {A B C} (f : A -> result B) (g : B -> C) (l : list A) :
  mapM (fun x => fmap g (f x)) l = fmap (map g) (mapM f l).
Proof.
  induction l as [| x t IH]; simpl; [reflexivity |].
  destruct (f x) as [y | e]; simpl; [| reflexivity].
  rewrite IH. destruct (mapM f t); reflexivity.
Qed.

Lemma forEach_app {S A} (f : S -> A -> result S) (l1 l2 : list A) (s : S) :
  forEach f (l1 ++ l2) s = (s' <- forEach f l1 s ;; forEach f l2 s').
Proof.
  revert s; induction l1 as [| x t IH]; intro s; simpl; [reflexivity |].
  destruct (f s x) as [s' | e]; simpl; [apply IH | reflexivity].
Qed.

(* ================================================================== *)
(** ** First-occurrence de-duplication *)

Section Keyed.
Context {A : Type} (key : A -> nat).

Let eqb := key_eqb key.

Lemma filter_filter_and (p q : A -> bool) (l : list A) :
  List.filter p (List.filter q l) = List.filter (fun x => p x && q x) l.
Proof.
  induction l as [| x t IH]; simpl; [reflexivity |].
  destruct (q x); simpl; rewrite ?andb_true_r, ?andb_false_r.
  - destruct (p x); simpl; rewrite IH; reflexivity.
  - exact IH.
Qed.

Lemma keep_first_cons (a : A) (l : list A) :
  keep_first key (a :: l) =
  a :: List.filter (fun y => negb (key_eqb key a y)) (keep_first key l).
Proof. reflexivity. Qed.

Lemma keep_first_filter (p : A -> bool) (l : list A) :
  (forall x y, key x = key y -> p x = p y) ->
  keep_first key (List.filter p l) = List.filter p (keep_first key l).
Proof.
  intro Hp; induction l as [| a t IH]; [reflexivity |].
  rewrite keep_first_cons.
  cbn [List.filter]. destruct (p a) eqn:Ha.
  - rewrite keep_first_cons, IH. f_equal.
    rewrite !filter_filter_and. apply filter_ext.
    intro y; apply andb_comm.
  - rewrite IH, filter_filter_and. apply filter_ext.
    intro y. unfold key_eqb.
    destruct (Nat.eqb_spec (key a) (key y)) as [E | _]; simpl.
    + rewrite <- (Hp _ _ E), Ha; reflexivity.
    + symmetry; apply andb_true_r.
Qed.

Lemma fold_add_new (l acc : list A) :
  fold_left (add_new key) l acc =
  acc ++ keep_first key
           (List.filter (fun x => negb (existsb (eqb x) acc)) l).
Proof.
  revert acc; induction l as [| x t IH]; intro acc; simpl.
  - symmetry; apply app_nil_r.
  - unfold add_new at 2. fold eqb.
    destruct (existsb (eqb x) acc) eqn:Hx; simpl.
    + apply IH.
    + rewrite IH, <- app_assoc. simpl. do 2 f_equal.
      rewrite <- keep_first_filter.
      * f_equal. rewrite filter_filter_and. apply filter_ext.
        intro y. rewrite existsb_app; simpl. rewrite orb_false_r.
        rewrite negb_orb, andb_comm. f_equal. f_equal.
        unfold eqb, key_eqb. apply Nat.eqb_sym.
      * intros y z E. unfold key_eqb. rewrite E; reflexivity.
Qed.

Lemma keep_first_incl (l : list A) : incl (keep_first key l) l.
Proof.
  induction l as [| a t IH]; simpl; intros y Hy; [exact Hy |].
  destruct Hy as [-> | Hy]; [left; reflexivity |].
  right. apply IH. apply filter_In in Hy. tauto.
Qed.

Lemma keep_first_NoDup (l : list A) : NoDup (map key (keep_first key l)).
Proof.
  induction l as [| a t IH]; simpl; constructor.
  - intro Hin. apply in_map_iff in Hin as (y & Hy & Hin).
    apply filter_In in Hin as [_ Hne].
    unfold key_eqb in Hne. rewrite Hy, Nat.eqb_refl in Hne.
    discriminate.
  - remember (keep_first key t) as u eqn:Hu. clear Hu.
    induction u as [| b u IHu]; simpl; [constructor |].
    inversion IH as [| ? ? Hnot Hnd]; subst.
    destruct (negb (key_eqb key a b)); simpl; [| apply IHu, Hnd].
    constructor; [| apply IHu, Hnd].
    intro Hin; apply Hnot.
    apply in_map_iff in Hin as (y & Hy & Hin).
    apply filter_In in Hin as [Hin _].
    apply in_map_iff; exists y; tauto.
Qed.

Lemma keep_first_covers (l : list A) (x : A) :
  In x l -> exists y, In y (keep_first key l) /\ key y = key x.
Proof.
  induction l as [| a t IH]; simpl; intros Hx; [contradiction |].
  destruct Hx as [-> | Hx]; [exists x; split; [left |]; reflexivity |].
  destruct (IH Hx) as (y & Hy & E).
  destruct (Nat.eq_dec (key a) (key y)) as [Ea | Na].
  - exists a; split; [left; reflexivity | congruence].
  - exists y; split; [| exact E]. right.
    apply filter_In; split; [exact Hy |].
    unfold key_eqb. apply Nat.eqb_neq in Na. rewrite Na; reflexivity.
Qed.
End Keyed.

(* ================================================================== *)
(** ** The OR combinator *)

Lemma filter_all {A} (p : A -> bool) (l : list A) :
  (forall x, In x l -> p x = true) -> List.filter p l = l.
Proof.
  induction l as [| x t IH]; intro H; simpl; [reflexivity |].
  rewrite (H x (or_introl eq_refl)), IH; [reflexivity |].
  intros y Hy; apply H; right; exact Hy.
Qed.

Lemma record_same_value_zero (x y : value) :
  is_record x = true -> is_record y = true ->
  same_value_zero x y = key_eqb address x y.
Proof.
  destruct x; try discriminate; destruct y; try discriminate; reflexivity.
Qed.

Lemma record_same_reference (x y : value) :
  is_record x = true -> is_record y = true ->
  same_reference x y = key_eqb address x y.
Proof.
  destruct x; try discriminate; destruct y; try discriminate; reflexivity.
Qed.

Lemma record_truthy (x : value) : is_record x = true -> truthy x = true.
Proof. destruct x; try discriminate; reflexivity. Qed.

Lemma set_add_records (l acc : list value) :
  Forall (fun r => is_record r = true) l ->
  Forall (fun r => is_record r = true) acc ->
  fold_left set_add l acc = fold_left (add_new address) l acc.
Proof.
  intro Hl; revert acc; induction Hl as [| x t Hx _ IH]; intros acc Hacc;
    simpl; [reflexivity |].
  assert (E : set_add acc x = add_new address acc x).
  { unfold set_add, add_new.
    replace (existsb (same_value_zero x) acc)
      with (existsb (key_eqb address x) acc); [reflexivity |].
    rewrite Forall_forall in Hacc.
    clear IH. induction acc as [| a acc IHa]; simpl; [reflexivity |].
    rewrite record_same_value_zero;
      [| exact Hx | apply Hacc; left; reflexivity].
    f_equal. apply IHa. intros y Hy; apply Hacc; right; exact Hy. }
  rewrite E. apply IH.
  unfold add_new. destruct (existsb _ acc); [exact Hacc |].
  apply Forall_app; split; [exact Hacc | constructor; [exact Hx | constructor]].
Qed.

Lemma new_Set_records (l : list value) :
  Forall (fun r => is_record r = true) l ->
  new_Set l = keep_first address l.
Proof.
  intro Hl. unfold new_Set.
  rewrite set_add_records by (auto; constructor).
  rewrite fold_add_new. simpl.
  rewrite filter_all by reflexivity. reflexivity.
Qed.

Lemma union_by_reference_records (subsets : list (list value)) :
  Forall (fun r => is_record r = true) (List.concat subsets) ->
  union_by_reference subsets = keep_first address (List.concat subsets).
Proof.
  unfold union_by_reference.
  induction (List.concat subsets) as [| x t IH]; intro H; [reflexivity |].
  inversion H as [| ? ? Hx Ht]; subst.
  rewrite keep_first_cons. cbn [fold_right]. rewrite (IH Ht).
  f_equal. apply filter_ext_in. intros y Hy.
  rewrite record_same_reference; [reflexivity | exact Hx |].
  rewrite Forall_forall in Ht. apply Ht.
  apply (keep_first_incl address t), Hy.
Qed.

Lemma applyFilter_comparison (S : list value) (c : CrudFilter) :
  is_comparison c = true ->
  applyFilter (Some S) c = fmap Some (subset_of S c).
Proof.
  destruct c as [field operator operand | children]; simpl;
    [| discriminate].
  intro H. apply negb_true_iff in H. rewrite H.
  destruct (filterM _ S); reflexivity.
Qed.

Lemma subset_of_incl (S : list value) (c : CrudFilter) (sub : list value) :
  subset_of S c = Ok sub -> incl sub S.
Proof.
  destruct c as [field operator operand | children]; simpl.
  - apply filterM_incl.
  - intro H; injection H as <-. intros y [].
Qed.

Lemma subsets_incl (S : list value) (children : list CrudFilter)
  (subsets : list (list value)) :
  mapM (subset_of S) children = Ok subsets ->
  incl (List.concat subsets) S.
Proof.
  revert subsets; induction children as [| c t IH]; simpl; intros subsets H.
  - injection H as <-. intros y [].
  - apply bind_Ok in H as (sub & Hsub & H).
    apply bind_Ok in H as (rest & Hrest & H).
    injection H as <-. simpl.
    apply incl_app; [eapply subset_of_incl; eassumption | apply IH, Hrest].
Qed.

Lemma flat_Some (subsets : list (list value)) :
  flat (map Some subsets) = List.concat subsets.
Proof.
  induction subsets as [| sub t IH]; [reflexivity |].
  unfold flat in *. cbn [map flat_map List.concat]. rewrite IH. reflexivity.
Qed.

(** C1.  For a candidate set [S] of records and a top-level OR clause
    whose children are plain comparisons (the clause meets the set as the
    clauses before it have left it), the clause's result is the union
    of the subsets obtained by applying each child to [S] on its own,
    de-duplicated by reference: no two entries of the result share an
    address, every entry comes from some child's subset, every object of
    some child's subset is represented, and (addresses naming one object
    each) every such object is itself an entry, so that equal records at
    different addresses all stay. *)
Theorem or_clause_is_union_by_reference
  (S : list value) (children : list CrudFilter) :
  Forall (fun r => is_record r = true) S ->
  Forall (fun c => is_comparison c = true) children ->
  (forall c, In c children ->
     applyFilter (Some S) c = fmap Some (subset_of S c)) /\
  filter_step (Some S) (ConditionalFilter children) =
    fmap (fun subsets => Some (union_by_reference subsets))
         (mapM (subset_of S) children) /\
  (forall subsets,
     mapM (subset_of S) children = Ok subsets ->
     NoDup (map address (union_by_reference subsets)) /\
     (forall r, In r (union_by_reference subsets) ->
        In r (List.concat subsets)) /\
     (forall r, In r (List.concat subsets) ->
        exists r', In r' (union_by_reference subsets) /\
                   same_reference r' r = true) /\
     (consistent S ->
      forall r, In r (List.concat subsets) ->
        In r (union_by_reference subsets))) /\
  (forall earlier start,
     forEach filter_step (earlier ++ [ConditionalFilter children]) start =
     (narrowed <- forEach filter_step earlier start ;;
      filter_step narrowed (ConditionalFilter children))).
Proof.
  intros HS Hc.
  assert (Happ : forall c, In c children ->
                   applyFilter (Some S) c = fmap Some (subset_of S c)).
  { intros c Hin. apply applyFilter_comparison.
    rewrite Forall_forall in Hc. apply Hc, Hin. }
  assert (Hrec : forall subsets,
             mapM (subset_of S) children = Ok subsets ->
             Forall (fun r => is_record r = true) (List.concat subsets)).
  { intros subsets Hm. rewrite Forall_forall in *. intros r Hr.
    apply HS. eapply subsets_incl; eassumption. }
  split; [exact Happ | split; [| split]].
  - simpl. rewrite (mapM_ext_in _ _ _ Happ), mapM_fmap.
    destruct (mapM (subset_of S) children) as [subsets | e] eqn:Hm;
      simpl; [| reflexivity].
    specialize (Hrec _ eq_refl).
    rewrite flat_Some, filter_all.
    + rewrite new_Set_records, union_by_reference_records by exact Hrec.
      reflexivity.
    + rewrite Forall_forall in Hrec. intros x Hx.
      apply record_truthy, Hrec, Hx.
  - intros subsets Hm. specialize (Hrec _ Hm).
    rewrite union_by_reference_records by exact Hrec.
    assert (Hcov : forall r, In r (List.concat subsets) ->
               exists r', In r' (keep_first address (List.concat subsets)) /\
                          same_reference r' r = true).
    { intros r Hr.
      destruct (keep_first_covers address _ _ Hr) as (y & Hy & E).
      exists y; split; [exact Hy |].
      rewrite Forall_forall in Hrec.
      rewrite record_same_reference.
      - unfold key_eqb. rewrite E. apply Nat.eqb_refl.
      - apply Hrec. apply (keep_first_incl address _), Hy.
      - apply Hrec, Hr. }
    repeat split.
    + apply keep_first_NoDup.
    + apply keep_first_incl.
    + exact Hcov.
    + intros Hcons r Hr.
      destruct (Hcov r Hr) as (y & Hy & E).
      assert (y = r) as <-; [| exact Hy].
      apply Hcons; [| | exact E].
      * eapply subsets_incl; [eassumption |].
        apply (keep_first_incl address _), Hy.
      * eapply subsets_incl; eassumption.
  - intros earlier start. rewrite forEach_app.
    destruct (forEach filter_step earlier start) as [narrowed | e];
      [| reflexivity].
    cbn [bind forEach].
    destruct (filter_step narrowed (ConditionalFilter children));
      reflexivity.
Qed.

Lemma or_clause_is_union_by_reference_witness :
  Forall (fun r => is_record r = true) Sample.people /\
  Forall (fun c => is_comparison c = true) Sample.young_or_twenty /\
  filter_step (Some Sample.people)
              (ConditionalFilter Sample.young_or_twenty) =
    Ok (Some [Sample.ann; Sample.ann']).
Proof.
  assert (H1 : Forall (fun r => is_record r = true) Sample.people)
    by (repeat constructor).
  assert (H2 : Forall (fun c => is_comparison c = true)
                      Sample.young_or_twenty)
    by (repeat constructor).
  split; [exact H1 | split; [exact H2 |]].
  destruct (or_clause_is_union_by_reference _ _ H1 H2) as (_ & H & _).
  rewrite H. reflexivity.
Defined.

(** Both children of the sample clause select the two records at
    addresses 11 and 12, which are equal field by field: each is listed
    once, and both are listed. *)
Example structurally_equal_records_both_remain :
  mapM (subset_of Sample.people) Sample.young_or_twenty =
    Ok [[Sample.ann; Sample.ann']; [Sample.ann; Sample.ann']] /\
  union_by_reference [[Sample.ann; Sample.ann']; [Sample.ann; Sample.ann']] =
    [Sample.ann; Sample.ann'].
Proof. split; reflexivity. Qed.

Lemma flat_app (a b : list (option (list value))) :
  flat (a ++ b) = flat a ++ flat b.
Proof. unfold flat. apply flat_map_app. Qed.

Lemma applyFilter_composite (outData : option (list value))
  (c : CrudFilter) :
  is_comparison c = false -> applyFilter outData c = Ok None.
Proof.
  destruct c as [field operator operand | children]; simpl;
    [| reflexivity].
  intro H. apply negb_false_iff in H. rewrite H. reflexivity.
Qed.

(** C9.  Inside a top-level OR clause, a child that is itself a composite
    makes [applyFilter] return no result, without an exception, and the
    clause then yields what it yields without that child: the child adds
    nothing to the union. *)
Theorem nested_or_contributes_nothing
  (outData : option (list value)) (before after : list CrudFilter)
  (child : CrudFilter) :
  is_comparison child = false ->
  applyFilter outData child = Ok None /\
  filter_step outData (ConditionalFilter (before ++ child :: after)) =
  filter_step outData (ConditionalFilter (before ++ after)).
Proof.
  intro Hc. pose proof (applyFilter_composite outData child Hc) as Hnone.
  split; [exact Hnone |].
  simpl. rewrite !mapM_app. simpl. rewrite Hnone. simpl.
  destruct (mapM (applyFilter outData) before) as [r1 | e]; simpl;
    [| reflexivity].
  destruct (mapM (applyFilter outData) after) as [r2 | e]; simpl;
    [| reflexivity].
  rewrite !flat_app, !filter_app. reflexivity.
Qed.

Lemma nested_or_contributes_nothing_witness :
  is_comparison (ConditionalFilter Sample.young_or_twenty) = false /\
  applyFilter (Some Sample.people)
              (ConditionalFilter Sample.young_or_twenty) = Ok None /\
  filter_step (Some Sample.people)
    (ConditionalFilter
       ([LogicalFilter "age" "gt" (VNum (Int 25))] ++
        ConditionalFilter Sample.young_or_twenty :: [])) =
  filter_step (Some Sample.people)
    (ConditionalFilter ([LogicalFilter "age" "gt" (VNum (Int 25))] ++ [])).
Proof.
  assert (H : is_comparison (ConditionalFilter Sample.young_or_twenty)
              = false) by reflexivity.
  split; [exact H |].
  exact (nested_or_contributes_nothing (Some Sample.people)
           [LogicalFilter "age" "gt" (VNum (Int 25))] [] _ H).
Defined.

(** The candidate set never becomes [undefined] while the clauses are
    applied, so the stages after filtering always find an array. *)
Lemma filter_stage_defined (filters : option (list CrudFilter))
  (records : list value) (out : option (list value)) :
  (forall field operand fs, filters = Some fs ->
     ~ In (LogicalFilter field "or" operand) fs) ->
  filter_stage filters records = Ok out -> out <> None.
Proof.
  destruct filters as [fs |]; simpl; [| intros _ [= <-]; discriminate].
  intro Hty. specialize (fun f o => Hty f o fs eq_refl).
  assert (G : forall s, s <> None -> forEach filter_step fs s = Ok out ->
                        out <> None); [| apply G; discriminate].
  induction fs as [| f t IH]; simpl; intros s Hs H.
  - injection H as <-. exact Hs.
  - apply bind_Ok in H as (s' & Hstep & H).
    apply (IH (fun fl o Hin => Hty fl o (or_intror Hin)) s'); [| exact H].
    destruct f as [field operator operand | children]; simpl in Hstep.
    + destruct (operator =? "or")%string eqn:Hor.
      * apply String.eqb_eq in Hor; subst operator.
        exfalso. apply (Hty field operand). left; reflexivity.
      * destruct s as [d |]; [| congruence].
        apply bind_Ok in Hstep as (o & _ & Hstep).
        injection Hstep as <-. discriminate.
    + apply bind_Ok in Hstep as (o & _ & Hstep).
      injection Hstep as <-. discriminate.
Qed.

(* ================================================================== *)
(** ** The filter evaluator *)

Lemma walk_app (obj : value) (p r : list string) :
  walk obj (p ++ r) = (v <- walk obj p ;; walk v r).
Proof.
  revert obj; induction p as [| f p IH]; intro obj; simpl; [reflexivity |].
  destruct (get_prop obj f) as [v | e]; simpl; [apply IH | reflexivity].
Qed.

Lemma walk_from_nullish (v : value) (rest : list string) :
  v = VUndef \/ v = VNull -> rest <> [] -> walk v rest = Throw TypeError.
Proof.
  intros [-> | ->] H; (destruct rest; [congruence | reflexivity]).
Qed.

(** The two variants of [applyFilter] are one function. *)
Lemma inline_applyFilter_same (data : option (list value)) (f : CrudFilter) :
  Inline.applyFilter data f = applyFilter data f.
Proof. reflexivity. Qed.


Lemma unrecognized_filterFn (operator : string) (operand v : value) :
  is_recognized operator = false -> filterFn operator operand v = Ok true.
Proof.
  unfold is_recognized, recognized. cbn [existsb]. intro H.
  repeat (apply orb_false_iff in H as [? H]).
  unfold filterFn.
  repeat match goal with
         | E : (operator =? _)%string = false |- _ => rewrite E; clear E
         end.
  reflexivity.
Qed.

Lemma get_prop_defined (v : value) (k : string) :
  v <> VUndef -> v <> VNull -> exists v', get_prop v k = Ok v'.
Proof.
  intros H1 H2. destruct v; simpl; try congruence; eauto;
    destruct (k =? "length")%string; eauto.
Qed.

Lemma walk_completes (path : list string) (obj : value) :
  (forall prefix rest v,
     path = prefix ++ rest -> rest <> [] ->
     walk obj prefix = Ok v -> v <> VUndef /\ v <> VNull) ->
  exists v, walk obj path = Ok v.
Proof.
  revert obj; induction path as [| f rest IH]; intros obj H; simpl;
    [eauto |].
  destruct (H [] (f :: rest) obj eq_refl ltac:(discriminate) eq_refl)
    as [H1 H2].
  destruct (get_prop_defined obj f H1 H2) as [v' Hv']. rewrite Hv'. simpl.
  apply IH. intros prefix rest' v E Hne Hw.
  apply (H (f :: prefix) rest' v); [rewrite E; reflexivity | exact Hne |].
  simpl. rewrite Hv'. exact Hw.
Qed.

(** C2, as the code has it.  Walking a field path reads a property of
    whatever the previous segment produced, so a segment that resolves to
    [undefined] (or to [null]) before the last one makes the evaluator
    throw a [TypeError], under every operator.  When no segment before the
    last resolves to [undefined] or [null], the walk completes with a
    value, and under [nnull] the evaluator raises no error and answers
    the truthiness of that value: false when the value is [undefined]. *)
Theorem unresolved_path
  (obj : value) (field operator : string) (operand : value) :
  (forall prefix rest v,
     split_dot field = prefix ++ rest -> rest <> [] ->
     walk obj prefix = Ok v -> v = VUndef \/ v = VNull ->
     evaluate field operator operand obj = Throw TypeError) /\
  ((forall prefix rest v,
      split_dot field = prefix ++ rest -> rest <> [] ->
      walk obj prefix = Ok v -> v <> VUndef /\ v <> VNull) ->
   exists v,
     walk obj (split_dot field) = Ok v /\
     evaluate field "nnull" operand obj = Ok (truthy v)) /\
  (walk obj (split_dot field) = Ok VUndef ->
   evaluate field "nnull" operand obj = Ok false).
Proof.
  unfold evaluate. split; [| split].
  - intros prefix rest v Hsplit Hrest Hwalk Hv.
    rewrite Hsplit, walk_app, Hwalk. simpl.
    rewrite (walk_from_nullish v rest Hv Hrest). reflexivity.
  - intro H. destruct (walk_completes _ obj H) as [v Hv].
    exists v. split; [exact Hv |]. rewrite Hv. cbn [bind].
    unfold filterFn. simpl. rewrite negb_involutive. reflexivity.
  - intros ->. reflexivity.
Qed.

Lemma unresolved_path_witness :
  (split_dot "meta.flag" = ["meta"] ++ ["flag"] /\
   ["flag"] <> [] /\
   walk Sample.plain ["meta"] = Ok VUndef /\
   evaluate "meta.flag" "nnull" VUndef Sample.plain = Throw TypeError) /\
  (walk Sample.bare_meta (split_dot "meta.flag") = Ok VUndef /\
   evaluate "meta.flag" "nnull" VUndef Sample.bare_meta = Ok false) /\
  ((forall prefix rest v,
      split_dot "meta.flag" = prefix ++ rest -> rest <> [] ->
      walk Sample.bare_meta prefix = Ok v -> v <> VUndef /\ v <> VNull) /\
   exists v,
     walk Sample.bare_meta (split_dot "meta.flag") = Ok v /\
     evaluate "meta.flag" "nnull" VUndef Sample.bare_meta = Ok (truthy v)).
Proof.
  split; [| split].
  - assert (H1 : split_dot "meta.flag" = ["meta"] ++ ["flag"])
      by reflexivity.
    assert (H2 : ["flag"] <> @nil string) by discriminate.
    assert (H3 : walk Sample.plain ["meta"] = Ok VUndef) by reflexivity.
    split; [exact H1 | split; [exact H2 | split; [exact H3 |]]].
    exact (proj1 (unresolved_path Sample.plain "meta.flag" "nnull" VUndef)
                 ["meta"] ["flag"] VUndef H1 H2 H3 (or_introl eq_refl)).
  - assert (H : walk Sample.bare_meta (split_dot "meta.flag") = Ok VUndef)
      by reflexivity.
    split; [exact H |].
    exact (proj2 (proj2 (unresolved_path Sample.bare_meta "meta.flag"
                                         "nnull" VUndef)) H).
  - assert (H : forall prefix rest v,
              split_dot "meta.flag" = prefix ++ rest -> rest <> [] ->
              walk Sample.bare_meta prefix = Ok v ->
              v <> VUndef /\ v <> VNull).
    { intros prefix rest v E Hne Hw.
      change (split_dot "meta.flag") with ["meta"; "flag"] in E.
      destruct prefix as [| a [| b [| c prefix]]]; simpl in E.
      - injection Hw as <-. split; discriminate.
      - injection E as <- <-. injection Hw as <-. split; discriminate.
      - injection E as <- <- <-. exfalso; apply Hne; reflexivity.
      - discriminate. }
    split; [exact H |].
    exact (proj1 (proj2 (unresolved_path Sample.bare_meta "meta.flag"
                                         "nnull" VUndef)) H).
Defined.

(** C2, as stated, fails: on a record without a [meta] key the path
    ["meta.flag"] has the segment [meta] resolving to [undefined] before
    the last segment, and the evaluator under [nnull] does not answer
    false but throws, as does [applyFilter] on a set holding the record. *)
Lemma nnull_under_missing_parent_throws :
  walk Sample.plain ["meta"] = Ok VUndef /\
  evaluate "meta.flag" "nnull" VUndef Sample.plain = Throw TypeError /\
  evaluate "meta.flag" "nnull" VUndef Sample.plain <> Ok false /\
  applyFilter (Some [Sample.plain])
              (LogicalFilter "meta.flag" "nnull" VUndef) = Throw TypeError.
Proof. repeat split; try reflexivity; discriminate. Qed.






(** C8, as the code has it.  Under an operator that [applyFilter] has no
    case for, the chosen predicate answers true on every value and never
    fails; the evaluator answers true on every record on which the field
    path can be walked, and a candidate set all of whose records admit the
    walk is returned unchanged. *)
Theorem unrecognized_operator_keeps_everything
  (field operator : string) (operand : value) :
  is_recognized operator = false ->
  (forall v, filterFn operator operand v = Ok true) /\
  (forall obj v,
     walk obj (split_dot field) = Ok v ->
     evaluate field operator operand obj = Ok true) /\
  (forall S,
     (forall r, In r S -> exists v, walk r (split_dot field) = Ok v) ->
     applyFilter (Some S) (LogicalFilter field operator operand) =
       Ok (Some S) /\
     filter_step (Some S) (LogicalFilter field operator operand) =
       Ok (Some S)).
Proof.
  intro Hop.
  assert (Hfn : forall v, filterFn operator operand v = Ok true)
    by (intro v; apply unrecognized_filterFn, Hop).
  assert (Hev : forall obj v,
             walk obj (split_dot field) = Ok v ->
             evaluate field operator operand obj = Ok true).
  { intros obj v H. unfold evaluate. rewrite H. simpl. apply Hfn. }
  split; [exact Hfn | split; [exact Hev |]].
  intros S HS.
  assert (Hor : (operator =? "or")%string = false).
  { unfold is_recognized, recognized in Hop. cbn [existsb] in Hop.
    repeat (apply orb_false_iff in Hop as [? Hop]). assumption. }
  assert (Happ : applyFilter (Some S) (LogicalFilter field operator operand)
                 = Ok (Some S)).
  { simpl. rewrite Hor.
    rewrite (filterM_pure _ (fun _ => true)).
    - simpl. rewrite filter_all by reflexivity. reflexivity.
    - intros r Hr. destruct (HS r Hr) as [v Hv]. apply (Hev r v Hv). }
  split; exact Happ.
Qed.

Lemma unrecognized_operator_keeps_everything_witness :
  is_recognized "contains" = false /\
  applyFilter (Some Sample.people)
              (LogicalFilter "age" "contains" (VStr "2")) =
    Ok (Some Sample.people).
Proof.
  assert (H : is_recognized "contains" = false) by reflexivity.
  split; [exact H |].
  destruct (unrecognized_operator_keeps_everything "age" "contains"
              (VStr "2") H) as (_ & _ & Hset).
  apply Hset.
  intros r Hr. simpl in Hr.
  destruct Hr as [<- | [<- | [<- | []]]]; eexists; reflexivity.
Defined.

(** C8, as stated, fails: ["contains"] is not among the recognized
    operators, and on a record without a [meta] key the clause on
    ["meta.flag"] makes the evaluator, and [applyFilter] with it, throw
    instead of answering true. *)
Lemma unrecognized_operator_can_throw :
  is_recognized "contains" = false /\
  evaluate "meta.flag" "contains" (VStr "x") Sample.plain = Throw TypeError /\
  evaluate "meta.flag" "contains" (VStr "x") Sample.plain <> Ok true /\
  applyFilter (Some [Sample.plain])
              (LogicalFilter "meta.flag" "contains" (VStr "x")) <>
    Ok (Some [Sample.plain]).
Proof. repeat split; try reflexivity; discriminate. Qed.

(* ================================================================== *)
(** ** Pagination *)

Lemma firstn_plus {A} (a b : nat) (l : list A) :
  firstn (a + b) l = firstn a l ++ firstn b (skipn a l).
Proof.
  revert l; induction a as [| a IH]; intro l; [reflexivity |].
  destruct l as [| x t]; simpl.
  - destruct b; reflexivity.
  - rewrite IH; reflexivity.
Qed.

Lemma firstn_capped {A} (n : nat) (l : list A) :
  firstn (Nat.min n (List.length l)) l = firstn n l.
Proof.
  destruct (Nat.le_ge_cases n (List.length l)) as [H | H].
  - rewrite Nat.min_l by exact H. reflexivity.
  - rewrite Nat.min_r by exact H.
    rewrite !firstn_all2; [reflexivity | exact H | apply Nat.le_refl].
Qed.

(** [slice] between two indices that are in order and not negative. *)
Lemma slice_window {A} (l : list A) (a b : Z) :
  0 <= a <= b ->
  slice l (Int a) (Int b) =
  firstn (Z.to_nat (b - a)) (skipn (Z.to_nat a) l).
Proof.
  intros [Ha Hab]. unfold slice, clamp_index, to_integer.
  destruct (Z.ltb_spec a 0) as [? | _]; [lia |].
  destruct (Z.ltb_spec b 0) as [? | _]; [lia |].
  set (len := Z.of_nat (List.length l)).
  destruct (Z.le_gt_cases a len) as [Hin | Hout].
  - rewrite (Z.min_l a len) by exact Hin.
    rewrite <- (firstn_capped (Z.to_nat (b - a))).
    f_equal. rewrite length_skipn. unfold len. lia.
  - rewrite (Z.min_r a len) by lia.
    rewrite !skipn_all2 by (unfold len in *; lia).
    rewrite !firstn_nil. reflexivity.
Qed.

Lemma paginate_explicit (S : list value) (K P : Z) :
  1 <= K -> 1 <= P ->
  paginate (Some {| current := Some (Int K); pageSize := Some (Int P) |}) S =
  {| data := firstn (Z.to_nat P) (skipn (Z.to_nat ((K - 1) * P)) S);
     total := Z.of_nat (List.length S) |}.
Proof.
  intros HK HP. unfold paginate, or_else. simpl.
  destruct (Z.eqb_spec K 0) as [? | _]; [lia |].
  destruct (Z.eqb_spec P 0) as [? | _]; [lia |].
  simpl. rewrite slice_window by nia.
  do 3 f_equal. lia.
Qed.

Lemma pages_prefix (S : list value) (p m : nat) :
  List.concat
    (map (fun i => firstn p (skipn ((i - 1) * p) S)) (seq 1 m)) =
  firstn (m * p) S.
Proof.
  induction m as [| m IH]; [reflexivity |].
  rewrite seq_S, map_app, concat_app, IH. simpl.
  rewrite app_nil_r, Nat.sub_0_r.
  replace (p + m * p)%nat with (m * p + p)%nat by lia.
  symmetry; apply firstn_plus.
Qed.

Lemma ceil_div_covers (N P : Z) :
  0 <= N -> 1 <= P -> N <= ceil_div N P * P /\ 0 <= ceil_div N P.
Proof.
  intros HN HP. unfold ceil_div.
  pose proof (Z.div_mod (N + P - 1) P ltac:(lia)) as E.
  pose proof (Z.mod_pos_bound (N + P - 1) P ltac:(lia)) as B.
  split; [nia |]. apply Z.div_pos; lia.
Qed.

(** C3.  For a filtered and sorted set [S] of size [N], page size
    [P >= 1] and page number [K >= 1], the page is the window
    [[(K-1)*P, K*P)] of [S] cut at the end of [S]; it holds
    [max 0 (min P (N - (K-1)*P))] records; the pages [1 .. ceil(N/P)]
    concatenate to [S]; the total is [N]; an absent page number stands for
    [1] and an absent page size for [10]; and whatever the page, [getList]
    fulfils with it. *)
Theorem pagination_pages (S : list value) (K P : Z) :
  1 <= K -> 1 <= P ->
  let N := Z.of_nat (List.length S) in
  let r := paginate (Some {| current := Some (Int K);
                             pageSize := Some (Int P) |}) S in
  data r = firstn (Z.to_nat P) (skipn (Z.to_nat ((K - 1) * P)) S) /\
  Z.of_nat (List.length (data r)) = Z.max 0 (Z.min P (N - (K - 1) * P)) /\
  total r = N /\
  List.concat (map (page P S) (page_numbers (ceil_div N P))) = S /\
  paginate (Some {| current := None; pageSize := Some (Int P) |}) S =
    paginate (Some {| current := Some (Int 1);
                      pageSize := Some (Int P) |}) S /\
  paginate (Some {| current := Some (Int K); pageSize := None |}) S =
    paginate (Some {| current := Some (Int K);
                      pageSize := Some (Int 10) |}) S /\
  paginate None S =
    paginate (Some {| current := Some (Int 1);
                      pageSize := Some (Int 10) |}) S /\
  (forall array_sort this resource pagination sort filters v filtered,
     db_get (database this) resource = Fulfilled (Some v) ->
     filter_stage filters (object_values v) = Ok (Some filtered) ->
     sort_stage array_sort sort filtered = Ok S ->
     outcome (getList array_sort this resource pagination sort filters) =
       Completion (Fulfilled (Some (paginate pagination S))) []).
Proof.
  intros HK HP N r.
  assert (Hr : r = {| data := firstn (Z.to_nat P)
                                (skipn (Z.to_nat ((K - 1) * P)) S);
                      total := N |})
    by (apply paginate_explicit; assumption).
  rewrite Hr. cbn [data total].
  split; [reflexivity | split; [| split; [reflexivity | split]]].
  - rewrite length_firstn, length_skipn. unfold N.
    assert (0 <= (K - 1) * P) by nia. lia.
  - unfold page_numbers. rewrite map_map.
    rewrite (map_ext_in _
               (fun i => firstn (Z.to_nat P)
                           (skipn ((i - 1) * Z.to_nat P) S))).
    + rewrite pages_prefix. apply firstn_all2.
      destruct (ceil_div_covers N P) as [Hc Hc0]; [unfold N; lia | lia |].
      fold N. unfold N in *. nia.
    + intros i Hi. apply in_seq in Hi. unfold page.
      rewrite paginate_explicit by lia. cbn [data].
      do 2 f_equal. nia.
  - repeat split.
    intros array_sort this resource pagination sort filters v filtered
           Hget Hfilter Hsort.
    unfold getList, finish, query. rewrite Hget. simpl.
    rewrite Hfilter. simpl. rewrite Hsort. reflexivity.
Qed.

Lemma pagination_pages_witness :
  1 <= 2 /\ 1 <= 2 /\
  data (paginate (Some {| current := Some (Int 2);
                          pageSize := Some (Int 2) |}) Sample.people) =
    [Sample.bob] /\
  List.concat (map (page 2 Sample.people) (page_numbers 2)) =
    Sample.people.
Proof.
  assert (H1 : 1 <= 2) by lia.
  split; [exact H1 | split; [exact H1 |]].
  destruct (pagination_pages Sample.people 2 2 H1 H1) as (Hd & _ & _ & Hc & _).
  split; [exact Hd | exact Hc].
Defined.

(* ================================================================== *)
(** ** Sorting *)












(* ================================================================== *)
(** ** Id allocation *)

Lemma bigger_Int (acc z : Z) : bigger (Int acc) (Int z) = Int (Z.max acc z).
Proof.
  unfold bigger, num_compare.
  destruct (Z.compare_spec z acc); f_equal; lia.
Qed.

Lemma fold_bigger (records : list value) (acc : Z) :
  fold_left bigger (map id_number records) (Int acc) =
  Int (greatest (numeric_ids records) acc).
Proof.
  unfold greatest.
  revert acc; induction records as [| r t IH]; intro acc; [reflexivity |].
  cbn [map fold_left numeric_ids flat_map].
  destruct (id_number r) as [| z].
  - simpl. apply IH.
  - rewrite bigger_Int. rewrite fold_left_app. simpl. apply IH.
Qed.

Lemma record_ids (records : list value) :
  Forall (fun r => is_record r = true) records ->
  mapM (fun item => id <- get_prop item "id" ;; Ok (to_number id)) records =
  Ok (map id_number records).
Proof.
  induction 1 as [| r t Hr _ IH]; simpl; [reflexivity |].
  rewrite IH. unfold id_number.
  destruct r; try discriminate; reflexivity.
Qed.

Lemma greatest_max (l : list Z) (a b : Z) :
  greatest l (Z.max a b) = Z.max a (greatest l b).
Proof.
  unfold greatest. revert b; induction l as [| x t IH]; intro b; simpl;
    [reflexivity |].
  rewrite <- IH. f_equal. lia.
Qed.

Lemma greatest_bounds (l : list Z) (a : Z) :
  a <= greatest l a /\ forall k, In k l -> k <= greatest l a.
Proof.
  unfold greatest. revert a; induction l as [| x t IH]; intro a; simpl.
  - split; [lia | intros k []].
  - destruct (IH (Z.max a x)) as [Ha Hin]. split; [lia |].
    intros k [<- | Hk]; [lia | apply Hin, Hk].
Qed.

Lemma greatest_below (l : list Z) (a bound : Z) :
  a <= bound -> (forall k, In k l -> k <= bound) -> greatest l a <= bound.
Proof.
  unfold greatest. revert a; induction l as [| x t IH]; intros a Ha H;
    simpl; [exact Ha |].
  apply IH; [| intros k Hk; apply H; right; exact Hk].
  pose proof (H x (or_introl eq_refl)). lia.
Qed.

Lemma round_double_small (z : Z) : Z.abs z <= 2 ^ 53 -> round_double z = z.
Proof.
  intro H. unfold round_double.
  destruct (Z.leb_spec (Z.abs z) (2 ^ 53)); [reflexivity | lia].
Qed.

Lemma safe_integer_bound (z : Z) :
  safe_integer z = true -> Z.abs z <= 2 ^ 53 - 1.
Proof. unfold safe_integer. apply Z.leb_le. Qed.

Lemma string_number_safe (s : string) (z : Z) :
  numeric_string s = true -> string_to_num s = Int z ->
  safe_integer z = true.
Proof.
  unfold numeric_string, string_to_num.
  destruct (parse_literal s) as [| negative | m e].
  - intros _ H. discriminate.
  - intros H _. discriminate.
  - destruct (literal_integer (Decimal m e)) as [z' |]; [| discriminate].
    intros H [= <-]. exact H.
Qed.

(** Inside the universe, a value that coerces to a number coerces to a
    safe integer. *)
Lemma universe_number_safe (v : value) (z : Z) :
  in_universe v = true -> to_number v = Int z -> safe_integer z = true.
Proof.
  destruct v as [| | [|] | [| k] | s | l fs | l es]; simpl;
    try discriminate.
  - intros _ [= <-]. reflexivity.
  - intros _ [= <-]. reflexivity.
  - intros _ [= <-]. reflexivity.
  - intros H [= <-]. exact H.
  - unfold to_number. simpl. apply string_number_safe.
  - intros H E. apply andb_true_iff in H as [_ H].
    unfold to_number in E. simpl in E. simpl in H.
    apply (string_number_safe _ _ H E).
Qed.

Lemma id_number_of (r : value) :
  is_record r = true -> id_number r = to_number (id_of r).
Proof.
  unfold id_number, id_of. destruct r; try discriminate; reflexivity.
Qed.

Lemma numeric_ids_safe (records : list value) (k : Z) :
  Forall (fun r => is_record r = true) records ->
  Forall (fun r => in_universe (id_of r) = true) records ->
  In k (numeric_ids records) -> Z.abs k <= 2 ^ 53 - 1.
Proof.
  intros Hrec Huni Hk. unfold numeric_ids in Hk.
  apply in_flat_map in Hk as (r & Hr & Hk).
  rewrite Forall_forall in Hrec, Huni.
  destruct (id_number r) as [| z] eqn:E; [contradiction |].
  destruct Hk as [<- | []].
  apply safe_integer_bound.
  apply (universe_number_safe (id_of r)); [apply Huni, Hr |].
  rewrite <- (id_number_of _ (Hrec r Hr)). exact E.
Qed.

Lemma greatest_id_safe (records : list value) :
  Forall (fun r => is_record r = true) records ->
  Forall (fun r => in_universe (id_of r) = true) records ->
  0 <= greatest (numeric_ids records) 0 <= 2 ^ 53 - 1.
Proof.
  intros Hrec Huni.
  split; [apply (proj1 (greatest_bounds (numeric_ids records) 0)) |].
  apply greatest_below; [lia |].
  intros k Hk. pose proof (numeric_ids_safe _ _ Hrec Huni Hk). lia.
Qed.

(** What the default strategy answers on a collection of records whose
    ids are inside the universe. *)
Lemma default_strategy_value (st : Store) (resource : string) (l : loc)
  (records : list value) :
  db_get st resource = Fulfilled (Some (VArr l records)) ->
  Forall (fun r => is_record r = true) records ->
  Forall (fun r => in_universe (id_of r) = true) records ->
  biggestIdPlusOneStrategy st resource =
    Fulfilled (VNum (Int (greatest (numeric_ids records) 0 + 1))).
Proof.
  intros Hget Hrec Huni. unfold biggestIdPlusOneStrategy.
  rewrite Hget. simpl.
  rewrite (record_ids _ Hrec), fold_bigger. unfold num_add.
  rewrite round_double_small; [reflexivity |].
  pose proof (greatest_id_safe _ Hrec Huni). lia.
Qed.

(** C6, as the code has it.  On a collection of records whose ids are
    inside the universe (safe integers, as numbers or as the strings that
    denote them, or not numbers at all) the default strategy fulfils with
    one more than the greatest of [0] and the ids that are numbers after
    coercion; ids that coerce to [NaN] are passed over.  It is one more
    than the maximum id whenever that maximum is not negative. *)
Theorem biggest_id_plus_one (st : Store) (resource : string)
  (l : loc) (records : list value) :
  db_get st resource = Fulfilled (Some (VArr l records)) ->
  Forall (fun r => is_record r = true) records ->
  Forall (fun r => in_universe (id_of r) = true) records ->
  getCreateId (new_provider st None) = biggestIdPlusOneStrategy /\
  biggestIdPlusOneStrategy st resource =
    Fulfilled (VNum (Int (greatest (numeric_ids records) 0 + 1))) /\
  (forall m, max_id (numeric_ids records) = Some m -> 0 <= m ->
     biggestIdPlusOneStrategy st resource = Fulfilled (VNum (Int (m + 1)))).
Proof.
  intros Hget Hrec Huni. split; [reflexivity |].
  pose proof (default_strategy_value _ _ _ _ Hget Hrec Huni) as E.
  split; [exact E |].
  intros m Hm Hpos. rewrite E. do 3 f_equal.
  unfold max_id in Hm. destruct (numeric_ids records) as [| x t];
    [discriminate |].
  injection Hm as <-. unfold greatest at 1. simpl.
  fold (greatest t (Z.max 0 x)). rewrite greatest_max. lia.
Qed.

Lemma biggest_id_plus_one_witness :
  db_get (Sample.holding Sample.posts) "posts" =
    Fulfilled (Some Sample.posts) /\
  Forall (fun r => in_universe (id_of r) = true)
         (object_values Sample.posts) /\
  max_id (numeric_ids (object_values Sample.posts)) = Some 7 /\
  0 <= 7 /\
  biggestIdPlusOneStrategy (Sample.holding Sample.posts) "posts" =
    Fulfilled (VNum (Int (7 + 1))).
Proof.
  assert (H1 : db_get (Sample.holding Sample.posts) "posts" =
               Fulfilled (Some Sample.posts)) by reflexivity.
  assert (Hu : Forall (fun r => in_universe (id_of r) = true)
                      (object_values Sample.posts))
    by (repeat constructor).
  assert (H2 : max_id (numeric_ids (object_values Sample.posts)) = Some 7)
    by reflexivity.
  assert (H3 : 0 <= 7) by lia.
  split; [exact H1 | split; [exact Hu | split; [exact H2 |
    split; [exact H3 |]]]].
  refine (proj2 (proj2 (biggest_id_plus_one (Sample.holding Sample.posts)
                          "posts" _ _ H1 _ Hu)) 7 H2 H3).
  repeat constructor.
Defined.

(** The strategy calls [map] on the snapshot's value as it comes, where
    [getList] goes through [Object.values]: a collection that arrives as a
    keyed object makes it reject with a [TypeError]. *)
Example keyed_collection_rejects :
  biggestIdPlusOneStrategy (Sample.holding Sample.keyed_posts) "posts" =
    Rejected TypeError /\
  object_values Sample.keyed_posts = object_values Sample.posts.
Proof. split; reflexivity. Qed.

(** C6, as stated, fails: in a collection whose only record has the id
    [-5], the maximum numeric id is [-5]; the strategy fulfils with [1],
    not with [-4]. *)
Lemma negative_ids_are_not_exceeded_by_one :
  max_id (numeric_ids (object_values Sample.below_zero)) = Some (-5) /\
  biggestIdPlusOneStrategy (Sample.holding Sample.below_zero) "posts" =
    Fulfilled (VNum (Int 1)) /\
  biggestIdPlusOneStrategy (Sample.holding Sample.below_zero) "posts" <>
    Fulfilled (VNum (Int (-5 + 1))).
Proof. repeat split; try reflexivity; discriminate. Qed.

(* ================================================================== *)
(** ** Failure reporting of the store glue *)

Lemma finish_fulfils {A} (cs : list store_call)
  (body : result (option A * list exn)) :
  exists r, promise (outcome (finish cs body)) = Fulfilled r.
Proof.
  unfold finish, try_catch.
  destruct body as [[r d] | e]; simpl; eauto.
Qed.

(** C5 is what the glue is meant to do and does not do.  Every method
    ends in a handler that makes a rejected promise and lets go of it, and
    the branch for a missing path does the same, so the promise that the
    method returned is never rejected: on a missing path and on a failing
    store, [getOne], [getList] and [getMany] fulfil with [undefined], and
    so does [createData] when the allocator or the write fails.  The id
    allocator, which returns its rejected promise, does reject. *)
Theorem failures_fulfil_with_undefined (array_sort : sort_engine) :
  (forall this resource id,
     exists r, promise (outcome (getOne this resource id)) = Fulfilled r) /\
  (forall this resource pagination sort filters,
     exists r,
       promise (outcome (getList array_sort this resource pagination sort
                                 filters)) = Fulfilled r) /\
  (forall this fresh resource ids,
     exists r,
       promise (outcome (getMany this fresh resource ids)) = Fulfilled r) /\
  (forall this fresh resource variables,
     exists r,
       promise (outcome (createData this fresh resource variables))
       = Fulfilled r) /\
  outcome (getOne (Sample.on Sample.missing) "posts" (VNum (Int 7))) =
    Completion (Fulfilled None) [Reason (VStr "")] /\
  outcome (getList array_sort (Sample.on Sample.missing) "posts"
                   None None None) =
    Completion (Fulfilled None) [Reason VUndef] /\
  outcome (getMany (Sample.on Sample.missing) 0%nat "posts"
                   [VNum (Int 7)]) =
    Completion (Fulfilled None) [Reason VUndef] /\
  outcome (getOne (Sample.on Sample.failing) "posts" (VNum (Int 7))) =
    Completion (Fulfilled None) [Reason (VStr "offline")] /\
  outcome (getList array_sort (Sample.on Sample.failing) "posts"
                   None None None) =
    Completion (Fulfilled None) [Reason (VStr "offline")] /\
  outcome (getMany (Sample.on Sample.failing) 0%nat "posts"
                   [VNum (Int 7)]) =
    Completion (Fulfilled None) [Reason (VStr "offline")] /\
  outcome (createData (Sample.on Sample.missing) 0%nat "posts"
                      Sample.draft) =
    Completion (Fulfilled None) [Reason (VStr "")] /\
  outcome (createData (new_provider Sample.failing
                         (Some (fun _ _ => Fulfilled (VNum (Int 1)))))
                      0%nat "posts" Sample.draft) =
    Completion (Fulfilled None) [Reason (VStr "offline")] /\
  biggestIdPlusOneStrategy Sample.missing "posts" =
    Rejected (Reason (VStr "")) /\
  biggestIdPlusOneStrategy Sample.failing "posts" =
    Rejected (Reason (VStr "offline")).
Proof.
  split; [intros; apply finish_fulfils |].
  split; [intros; apply finish_fulfils |].
  split; [intros; apply finish_fulfils |].
  split.
  { intros this fresh resource variables. unfold createData.
    destruct (getCreateId this (database this) resource);
      apply finish_fulfils. }
  repeat split.
Qed.

(* ================================================================== *)
(** ** Creation *)

Lemma lookup_set_field_same (k : string) (v : value)
  (fs : list (string * value)) :
  lookup_field k (set_field k v fs) = Some v.
Proof.
  induction fs as [| [k' v'] t IH]; simpl.
  - rewrite String.eqb_refl; reflexivity.
  - destruct (String.eqb_spec k k') as [_ | N]; simpl.
    + rewrite String.eqb_refl; reflexivity.
    + apply String.eqb_neq in N. rewrite N. exact IH.
Qed.

Lemma lookup_set_field_other (k k' : string) (v : value)
  (fs : list (string * value)) :
  k' <> k -> lookup_field k' (set_field k v fs) = lookup_field k' fs.
Proof.
  intro N. induction fs as [| [k0 v0] t IH]; simpl.
  - apply String.eqb_neq in N. rewrite N; reflexivity.
  - destruct (String.eqb_spec k k0) as [<- | _]; simpl.
    + apply String.eqb_neq in N. rewrite N; reflexivity.
    + rewrite IH; reflexivity.
Qed.

Lemma set_field_new (k : string) (v : value) (fs : list (string * value)) :
  ~ In k (map fst fs) -> set_field k v fs = fs ++ [(k, v)].
Proof.
  induction fs as [| [k' v'] t IH]; simpl; intro H; [reflexivity |].
  destruct (String.eqb_spec k k') as [-> | _]; [tauto |].
  rewrite IH by tauto. reflexivity.
Qed.

Lemma define_all (l acc : list (string * value)) :
  NoDup (map fst (acc ++ l)) ->
  fold_left (fun a kv => set_field (fst kv) (snd kv) a) l acc = acc ++ l.
Proof.
  revert acc; induction l as [| [k v] t IH]; intros acc H; simpl.
  - symmetry; apply app_nil_r.
  - rewrite set_field_new.
    + rewrite IH; rewrite <- app_assoc; [reflexivity | exact H].
    + rewrite map_app in H. simpl in H.
      apply NoDup_remove_2 in H. intro Hin. apply H.
      apply in_or_app; left; exact Hin.
Qed.

Lemma spread_own_properties (v : value) :
  NoDup (map fst (own_properties v)) -> spread v = own_properties v.
Proof. intro H. unfold spread. rewrite define_all; [reflexivity | exact H]. Qed.

(** C10.  When [createData] fulfils with a response, the allocator has
    fulfilled with an id; one object, allocated by [createData], is both
    what was written, under the path of that id, and what the response
    carries; its [id] is the allocated id, whatever [variables] said, and
    its other fields are those of [variables]. *)
Theorem created_record_carries_allocated_id
  (this : FirebaseDataProvider) (fresh : loc)
  (resource : string) (variables : value) (response : DataResponse) :
  promise (outcome (createData this fresh resource variables)) =
    Fulfilled (Some response) ->
  exists id payload,
    getCreateId this (database this) resource = Fulfilled id /\
    calls (createData this fresh resource variables) =
      [SetCall (resource ++ "/" ++ to_string id)%string payload] /\
    response = {| data_of := payload |} /\
    loc_of payload = Some fresh /\
    get_prop payload "id" = Ok id /\
    (NoDup (map fst (own_properties variables)) ->
     payload = VObj fresh (set_field "id" id (own_properties variables)) /\
     forall k, k <> "id" ->
       get_prop payload k =
         Ok (or_undefined (lookup_field k (own_properties variables)))).
Proof.
  unfold createData.
  destruct (getCreateId this (database this) resource) as [id | e];
    [| discriminate].
  set (payload := VObj fresh (set_field "id" id (spread variables))).
  intro H. exists id, payload.
  unfold finish, try_catch in *.
  destruct (db_set (database this) _ payload) as [[] | e]; simpl in *;
    [| discriminate].
  injection H as <-.
  repeat split.
  - unfold payload. simpl. rewrite lookup_set_field_same. reflexivity.
  - unfold payload. rewrite spread_own_properties by assumption.
    reflexivity.
  - intros k Hk. unfold payload. simpl.
    rewrite lookup_set_field_other by exact Hk.
    rewrite spread_own_properties by assumption. reflexivity.
Qed.

Lemma created_record_carries_allocated_id_witness :
  promise (outcome (createData (Sample.on (Sample.holding Sample.posts))
                               50%nat "posts" Sample.draft)) =
    Fulfilled (Some {| data_of := VObj 50%nat [("id", VNum (Int 8));
                                               ("title", VStr "hello")] |}) /\
  exists id payload,
    biggestIdPlusOneStrategy (Sample.holding Sample.posts) "posts" =
      Fulfilled id /\
    calls (createData (Sample.on (Sample.holding Sample.posts))
                      50%nat "posts" Sample.draft) =
      [SetCall ("posts" ++ "/" ++ to_string id)%string payload] /\
    get_prop payload "id" = Ok id.
Proof.
  assert (H : promise (outcome (createData
                (Sample.on (Sample.holding Sample.posts))
                50%nat "posts" Sample.draft)) =
              Fulfilled (Some {| data_of :=
                                   VObj 50%nat [("id", VNum (Int 8));
                                                ("title", VStr "hello")] |}))
    by reflexivity.
  split; [exact H |].
  destruct (created_record_carries_allocated_id _ _ _ _ _ H)
    as (id & payload & Hid & Hcalls & _ & _ & Hget & _).
  exists id, payload. split; [exact Hid | split; [exact Hcalls | exact Hget]].
Defined.

(* ================================================================== *)
(** ** More on [applyFilter] and the filter loop *)

Lemma filterM_Ok_filter {A} (f : A -> result bool) (l r : list A) :
  filterM f l = Ok r ->
  r = List.filter (fun x => match f x with
                            | Ok true => true
                            | _ => false
                            end) l.
Proof.
  revert r; induction l as [| x t IH]; simpl; intros r H.
  - injection H as <-. reflexivity.
  - apply bind_Ok in H as (b & Hb & H).
    apply bind_Ok in H as (r' & Hr' & H).
    injection H as <-. rewrite Hb, <- (IH _ Hr').
    destruct b; reflexivity.
Qed.

Lemma applyFilter_keeps (d out : list value) (field operator : string)
  (operand : value) :
  applyFilter (Some d) (LogicalFilter field operator operand) =
    Ok (Some out) ->
  out = List.filter (keeps field operator operand) d.
Proof.
  simpl. destruct (operator =? "or")%string; [discriminate |].
  intro H. apply bind_Ok in H as (r & Hr & H).
  injection H as <-. apply (filterM_Ok_filter _ _ _ Hr).
Qed.

Lemma keeps_evaluate (field operator : string) (operand obj : value) :
  keeps field operator operand obj = true ->
  evaluate field operator operand obj = Ok true.
Proof.
  unfold keeps. destruct (evaluate _ _ _ obj) as [[|] | e];
    [reflexivity | discriminate | discriminate].
Qed.

(** X1.  What a comparison clause returns is the candidate set with some
    records left out: the records on which the evaluator answers true, in
    the order in which they stood; it is never longer than the set. *)
Theorem applyFilter_selects (d out : list value) (field operator : string)
  (operand : value) :
  applyFilter (Some d) (LogicalFilter field operator operand) =
    Ok (Some out) ->
  out = List.filter (keeps field operator operand) d /\
  (forall r, In r out <->
     In r d /\ evaluate field operator operand r = Ok true) /\
  (List.length out <= List.length d)%nat.
Proof.
  intro H. apply applyFilter_keeps in H. subst out.
  split; [reflexivity | split].
  - intro r. rewrite filter_In. split.
    + intros [Hin Hk]. split; [exact Hin | apply keeps_evaluate, Hk].
    + intros [Hin Hev]. split; [exact Hin |].
      unfold keeps. rewrite Hev. reflexivity.
  - apply filter_length_le.
Qed.

Lemma applyFilter_selects_witness :
  applyFilter (Some Sample.people)
              (LogicalFilter "age" "lt" (VNum (Int 25))) =
    Ok (Some [Sample.ann; Sample.ann']) /\
  (List.length [Sample.ann; Sample.ann'] <= List.length Sample.people)%nat.
Proof.
  assert (H : applyFilter (Some Sample.people)
                (LogicalFilter "age" "lt" (VNum (Int 25))) =
              Ok (Some [Sample.ann; Sample.ann'])) by reflexivity.
  split; [exact H |].
  exact (proj2 (proj2 (applyFilter_selects _ _ _ _ _ H))).
Defined.

(** X2.  Applying a comparison clause to its own result changes nothing
    and raises nothing. *)
Theorem applyFilter_idempotent (d out : list value)
  (field operator : string) (operand : value) :
  applyFilter (Some d) (LogicalFilter field operator operand) =
    Ok (Some out) ->
  applyFilter (Some out) (LogicalFilter field operator operand) =
    Ok (Some out).
Proof.
  intro H. pose proof (applyFilter_keeps _ _ _ _ _ H) as E.
  simpl in *. destruct (operator =? "or")%string; [discriminate |].
  rewrite (filterM_pure _ (fun _ => true)).
  - simpl. rewrite filter_all by reflexivity. reflexivity.
  - intros r Hr. rewrite E in Hr. apply filter_In in Hr as [_ Hk].
    apply keeps_evaluate, Hk.
Qed.

Lemma applyFilter_idempotent_witness :
  applyFilter (Some Sample.people)
              (LogicalFilter "age" "lt" (VNum (Int 25))) =
    Ok (Some [Sample.ann; Sample.ann']) /\
  applyFilter (Some [Sample.ann; Sample.ann'])
              (LogicalFilter "age" "lt" (VNum (Int 25))) =
    Ok (Some [Sample.ann; Sample.ann']).
Proof.
  assert (H : applyFilter (Some Sample.people)
                (LogicalFilter "age" "lt" (VNum (Int 25))) =
              Ok (Some [Sample.ann; Sample.ann'])) by reflexivity.
  split; [exact H | exact (applyFilter_idempotent _ _ _ _ _ H)].
Defined.

Lemma two_comparisons (S out : list value) (f1 o1 : string) (v1 : value)
  (f2 o2 : string) (v2 : value) :
  filter_stage (Some [LogicalFilter f1 o1 v1; LogicalFilter f2 o2 v2]) S =
    Ok (Some out) ->
  out = List.filter (keeps f2 o2 v2) (List.filter (keeps f1 o1 v1) S).
Proof.
  cbn [filter_stage forEach filter_step]. intro H.
  apply bind_Ok in H as (s1 & H1 & H).
  apply bind_Ok in H as (s2 & H2 & H). injection H as ->.
  destruct s1 as [d1 |].
  - apply applyFilter_keeps in H1. apply applyFilter_keeps in H2.
    subst. reflexivity.
  - simpl in H2. destruct (o2 =? "or")%string; discriminate.
Qed.

(** X3.  Two comparison clauses narrow the set to the same records in
    either order, whenever both orders go through.  That they both go
    through is not a given: a first clause can remove the records on
    which the second would throw. *)
Theorem comparisons_commute (S out out' : list value)
  (f1 o1 : string) (v1 : value) (f2 o2 : string) (v2 : value) :
  filter_stage (Some [LogicalFilter f1 o1 v1; LogicalFilter f2 o2 v2]) S =
    Ok (Some out) ->
  filter_stage (Some [LogicalFilter f2 o2 v2; LogicalFilter f1 o1 v1]) S =
    Ok (Some out') ->
  out = out'.
Proof.
  intros H H'. apply two_comparisons in H. apply two_comparisons in H'.
  subst. rewrite !filter_filter_and. apply filter_ext.
  intro r. apply andb_comm.
Qed.

Lemma comparisons_commute_witness :
  filter_stage (Some [LogicalFilter "age" "lt" (VNum (Int 25));
                      LogicalFilter "age" "eq" (VStr "20")])
               Sample.people = Ok (Some [Sample.ann; Sample.ann']) /\
  filter_stage (Some [LogicalFilter "age" "eq" (VStr "20");
                      LogicalFilter "age" "lt" (VNum (Int 25))])
               Sample.people = Ok (Some [Sample.ann; Sample.ann']) /\
  [Sample.ann; Sample.ann'] = [Sample.ann; Sample.ann'].
Proof.
  assert (H1 : filter_stage
                 (Some [LogicalFilter "age" "lt" (VNum (Int 25));
                        LogicalFilter "age" "eq" (VStr "20")])
                 Sample.people = Ok (Some [Sample.ann; Sample.ann']))
    by reflexivity.
  assert (H2 : filter_stage
                 (Some [LogicalFilter "age" "eq" (VStr "20");
                        LogicalFilter "age" "lt" (VNum (Int 25))])
                 Sample.people = Ok (Some [Sample.ann; Sample.ann']))
    by reflexivity.
  split; [exact H1 | split; [exact H2 |]].
  exact (comparisons_commute _ _ _ _ _ _ _ _ _ H1 H2).
Defined.

(** The order of two clauses decides whether an exception is met: with the
    clause on [id] first, the record without [meta] is gone before
    ["meta.flag"] is walked. *)
Example clause_order_decides_exceptions :
  filter_stage (Some [LogicalFilter "id" "eq" (VNum (Int 2));
                      LogicalFilter "meta.flag" "null" VUndef])
               [Sample.plain; Sample.bare_meta] =
    Ok (Some [Sample.bare_meta]) /\
  filter_stage (Some [LogicalFilter "meta.flag" "null" VUndef;
                      LogicalFilter "id" "eq" (VNum (Int 2))])
               [Sample.plain; Sample.bare_meta] = Throw TypeError.
Proof. split; reflexivity. Qed.

Lemma set_add_incl (l acc : list value) :
  incl (fold_left set_add l acc) (acc ++ l).
Proof.
  revert acc; induction l as [| x t IH]; intro acc; simpl.
  - rewrite app_nil_r. apply incl_refl.
  - intros y Hy. apply IH in Hy. unfold set_add in Hy.
    destruct (existsb _ acc).
    + apply in_app_or in Hy as [Hy | Hy]; apply in_or_app;
        [left; exact Hy | right; right; exact Hy].
    + rewrite <- app_assoc in Hy. exact Hy.
Qed.

Lemma applyFilter_within (outData o : option (list value))
  (S : list value) (c : CrudFilter) :
  within outData S -> applyFilter outData c = Ok o -> within o S.
Proof.
  intros Hw H. destruct c as [field operator operand | children]; simpl in H.
  - destruct (operator =? "or")%string; [injection H as <-; exact I |].
    destruct outData as [d |]; [| injection H as <-; exact I].
    apply bind_Ok in H as (r & Hr & H). injection H as <-. simpl in *.
    intros y Hy. apply Hw. apply (filterM_incl _ _ _ Hr), Hy.
  - injection H as <-. exact I.
Qed.

Lemma children_within (outData : option (list value)) (S : list value)
  (children : list CrudFilter) (childOut : list (option (list value))) :
  within outData S ->
  mapM (applyFilter outData) children = Ok childOut ->
  incl (List.filter truthy (flat childOut)) S.
Proof.
  intro Hw. revert childOut.
  induction children as [| c t IH]; simpl; intros childOut H.
  - injection H as <-. intros y [].
  - apply bind_Ok in H as (o & Ho & H).
    apply bind_Ok in H as (rest & Hrest & H). injection H as <-.
    change (flat (o :: rest)) with
      (match o with Some l => l | None => [VUndef] end ++ flat rest).
    rewrite filter_app. apply incl_app; [| apply IH, Hrest].
    pose proof (applyFilter_within _ _ _ _ Hw Ho) as Hwo.
    destruct o as [d |]; simpl.
    + intros y Hy. apply filter_In in Hy as [Hy _]. apply Hwo, Hy.
    + intros y [].
Qed.

Lemma filter_step_within (outData o : option (list value))
  (S : list value) (c : CrudFilter) :
  within outData S -> filter_step outData c = Ok o -> within o S.
Proof.
  intros Hw H. destruct c as [field operator operand | children].
  - apply (applyFilter_within _ _ _ _ Hw H).
  - simpl in H. apply bind_Ok in H as (childOut & Hc & H).
    injection H as <-. simpl.
    intros y Hy. apply (children_within _ _ _ _ Hw Hc).
    apply set_add_incl in Hy. exact Hy.
Qed.

(** X4.  Whatever the clauses, comparisons and OR clauses alike, the
    filter loop ends with records of the collection it started from: it
    makes up none. *)
Theorem filter_stage_within (filters : option (list CrudFilter))
  (records out : list value) :
  filter_stage filters records = Ok (Some out) -> incl out records.
Proof.
  destruct filters as [fs |]; simpl;
    [| intros [= <-]; apply incl_refl].
  assert (G : forall s o, within s records ->
                forEach filter_step fs s = Ok o -> within o records).
  { induction fs as [| f t IH]; simpl; intros s o Hw H.
    - injection H as <-. exact Hw.
    - apply bind_Ok in H as (s' & Hs' & H).
      apply (IH s' o); [| exact H].
      apply (filter_step_within _ _ _ _ Hw Hs'). }
  intro H. apply (G (Some records) (Some out)); [apply incl_refl | exact H].
Qed.

Lemma filter_stage_within_witness :
  filter_stage (Some [ConditionalFilter Sample.young_or_twenty])
               Sample.people = Ok (Some [Sample.ann; Sample.ann']) /\
  incl [Sample.ann; Sample.ann'] Sample.people.
Proof.
  assert (H : filter_stage (Some [ConditionalFilter Sample.young_or_twenty])
                Sample.people = Ok (Some [Sample.ann; Sample.ann']))
    by reflexivity.
  split; [exact H | exact (filter_stage_within _ _ _ H)].
Defined.

(** X5.  Where the field path resolves on every record, [null] keeps the
    records whose value is falsy and [nnull] the others, so the two split
    the set between them; falsy are [undefined], [null], [false], [0],
    [NaN] and the empty string, and nothing else. *)
Theorem null_and_nnull_split (field : string) (operand operand' : value)
  (S : list value) (resolved : value -> value) :
  (forall r, In r S -> walk r (split_dot field) = Ok (resolved r)) ->
  applyFilter (Some S) (LogicalFilter field "null" operand) =
    Ok (Some (List.filter (fun r => negb (truthy (resolved r))) S)) /\
  applyFilter (Some S) (LogicalFilter field "nnull" operand') =
    Ok (Some (List.filter (fun r => truthy (resolved r)) S)) /\
  (forall v, truthy v = false <->
     v = VUndef \/ v = VNull \/ v = VBool false \/ v = VNum (Int 0) \/
     v = VNum NaN \/ v = VStr "").
Proof.
  intro H. split; [| split].
  - simpl. rewrite (filterM_pure _ (fun r => negb (truthy (resolved r))));
      [reflexivity |].
    intros r Hr. unfold evaluate. rewrite (H r Hr). reflexivity.
  - simpl. rewrite (filterM_pure _ (fun r => truthy (resolved r)));
      [reflexivity |].
    intros r Hr. unfold evaluate. rewrite (H r Hr).
    cbn [bind]. unfold filterFn. simpl.
    destruct (truthy (resolved r)); reflexivity.
  - intro v. split.
    + destruct v as [| | [|] | [| z] | s | |]; simpl; try discriminate;
        auto 10.
      * destruct (Z.eqb_spec z 0) as [-> | _]; [auto 10 | discriminate].
      * destruct s; [auto 10 | discriminate].
    + intros [-> | [-> | [-> | [-> | [-> | ->]]]]]; reflexivity.
Qed.

Lemma null_and_nnull_split_witness :
  (forall r, In r [Sample.plain; Sample.bare_meta] ->
     walk r (split_dot "meta") = Ok (or_undefined
                                       (match r with
                                        | VObj _ fs => lookup_field "meta" fs
                                        | _ => None
                                        end))) /\
  applyFilter (Some [Sample.plain; Sample.bare_meta])
              (LogicalFilter "meta" "null" VUndef) =
    Ok (Some [Sample.plain]) /\
  applyFilter (Some [Sample.plain; Sample.bare_meta])
              (LogicalFilter "meta" "nnull" VUndef) =
    Ok (Some [Sample.bare_meta]).
Proof.
  assert (H : forall r, In r [Sample.plain; Sample.bare_meta] ->
     walk r (split_dot "meta") = Ok (or_undefined
                                       (match r with
                                        | VObj _ fs => lookup_field "meta" fs
                                        | _ => None
                                        end))).
  { intros r [<- | [<- | []]]; reflexivity. }
  split; [exact H |].
  destruct (null_and_nnull_split "meta" VUndef VUndef _ _ H)
    as (H1 & H2 & _).
  split; [exact H1 | exact H2].
Defined.

Lemma applyFilter_resolved (field operator : string) (operand : value)
  (S : list value) (resolved : value -> value) (p : value -> bool) :
  (operator =? "or")%string = false ->
  (forall r, In r S -> walk r (split_dot field) = Ok (resolved r)) ->
  (forall v, filterFn operator operand v = Ok (p v)) ->
  applyFilter (Some S) (LogicalFilter field operator operand) =
    Ok (Some (List.filter (fun r => p (resolved r)) S)).
Proof.
  intros Hor H Hp. simpl. rewrite Hor.
  rewrite (filterM_pure _ (fun r => p (resolved r))); [reflexivity |].
  intros r Hr. unfold evaluate. rewrite (H r Hr). apply Hp.
Qed.

(** X6.  With an array as operand, [in] keeps the records whose resolved
    value is a member of the array and [nin] the others, where membership
    is without coercion: no number is a member by way of a string that
    spells it, nor the other way round. *)
Theorem in_is_membership_without_coercion (field : string) (l : loc)
  (elems : list value) (S : list value) (resolved : value -> value) :
  (forall r, In r S -> walk r (split_dot field) = Ok (resolved r)) ->
  applyFilter (Some S) (LogicalFilter field "in" (VArr l elems)) =
    Ok (Some (List.filter
                (fun r => existsb (same_value_zero (resolved r)) elems) S)) /\
  applyFilter (Some S) (LogicalFilter field "nin" (VArr l elems)) =
    Ok (Some (List.filter
                (fun r => negb (existsb (same_value_zero (resolved r)) elems))
                S)) /\
  (forall n s, same_value_zero (VNum n) (VStr s) = false /\
               same_value_zero (VStr s) (VNum n) = false).
Proof.
  intro H. split; [| split].
  - apply (applyFilter_resolved field "in" _ _ _
             (fun v => existsb (same_value_zero v) elems) eq_refl H).
    reflexivity.
  - apply (applyFilter_resolved field "nin" _ _ _
             (fun v => negb (existsb (same_value_zero v) elems)) eq_refl H).
    reflexivity.
  - intros n s. split; [destruct n |]; reflexivity.
Qed.

Lemma in_is_membership_without_coercion_witness :
  (forall r, In r Sample.people ->
     walk r (split_dot "age") = Ok (age_of r)) /\
  applyFilter (Some Sample.people)
    (LogicalFilter "age" "in" (VArr 0%nat [VStr "20"; VNum (Int 30)])) =
    Ok (Some [Sample.bob]).
Proof.
  assert (H : forall r, In r Sample.people ->
                walk r (split_dot "age") = Ok (age_of r)).
  { intros r [<- | [<- | [<- | []]]]; reflexivity. }
  split; [exact H |].
  exact (proj1 (in_is_membership_without_coercion "age" 0%nat
                  [VStr "20"; VNum (Int 30)] _ _ H)).
Defined.

(** X7.  [in] and [nin] call [includes] on the operand: when the operand
    is neither an array nor a string, the clause throws a [TypeError] on
    the first record whose path resolves, and yet on an empty candidate
    set, where nothing is evaluated, it returns the empty set. *)
Theorem in_needs_a_collection (field operator : string)
  (operand r v : value) (rest : list value) :
  operator = "in" \/ operator = "nin" ->
  (forall l elems, operand <> VArr l elems) ->
  (forall s, operand <> VStr s) ->
  walk r (split_dot field) = Ok v ->
  applyFilter (Some (r :: rest)) (LogicalFilter field operator operand) =
    Throw TypeError /\
  applyFilter (Some []) (LogicalFilter field operator operand) =
    Ok (Some []).
Proof.
  intros Hop Harr Hstr Hwalk.
  assert (Hinc : forall x, includes operand x = Throw TypeError).
  { intro x. destruct operand; try reflexivity.
    - exfalso; eapply Hstr; reflexivity.
    - exfalso; eapply Harr; reflexivity. }
  destruct Hop as [-> | ->]; (split; [| reflexivity]);
    simpl; unfold evaluate; rewrite Hwalk; cbn [bind];
    unfold filterFn; simpl; rewrite Hinc; reflexivity.
Qed.

Lemma in_needs_a_collection_witness :
  ("in" = "in" \/ "in" = "nin") /\
  walk Sample.ann (split_dot "age") = Ok (VNum (Int 20)) /\
  applyFilter (Some (Sample.ann :: [Sample.bob]))
              (LogicalFilter "age" "in" (VNum (Int 20))) = Throw TypeError.
Proof.
  assert (H1 : "in" = "in" \/ "in" = "nin") by (left; reflexivity).
  assert (H2 : walk Sample.ann (split_dot "age") = Ok (VNum (Int 20)))
    by reflexivity.
  split; [exact H1 | split; [exact H2 |]].
  refine (proj1 (in_needs_a_collection "age" "in" (VNum (Int 20))
                   Sample.ann _ [Sample.bob] H1 _ _ H2));
    intros; discriminate.
Defined.

Lemma is_substring_empty (s : string) : is_substring "" s = true.
Proof. destruct s; reflexivity. Qed.

(** X8.  With a string as operand, [in] is a search for the value's
    string form inside the operand, so that a record whose value is the
    empty string is kept under every string operand. *)
Theorem in_a_string_is_substring_search (field s : string)
  (S : list value) (resolved : value -> value) :
  (forall r, In r S -> walk r (split_dot field) = Ok (resolved r)) ->
  applyFilter (Some S) (LogicalFilter field "in" (VStr s)) =
    Ok (Some (List.filter
                (fun r => is_substring (to_string (resolved r)) s) S)) /\
  (forall r, In r S -> resolved r = VStr "" ->
     In r (List.filter
             (fun r => is_substring (to_string (resolved r)) s) S)).
Proof.
  intro H. split.
  - apply (applyFilter_resolved field "in" _ _ _
             (fun v => is_substring (to_string v) s) eq_refl H).
    reflexivity.
  - intros r Hr E. apply filter_In. split; [exact Hr |].
    rewrite E. apply is_substring_empty.
Qed.

Lemma in_a_string_is_substring_search_witness :
  (forall r, In r Sample.people ->
     walk r (split_dot "age") = Ok (age_of r)) /\
  applyFilter (Some Sample.people) (LogicalFilter "age" "in" (VStr "1203")) =
    Ok (Some [Sample.ann; Sample.ann']).
Proof.
  assert (H : forall r, In r Sample.people ->
                walk r (split_dot "age") = Ok (age_of r)).
  { intros r [<- | [<- | [<- | []]]]; reflexivity. }
  split; [exact H |].
  exact (proj1 (in_a_string_is_substring_search "age" "1203" _ _ H)).
Defined.

(* ================================================================== *)
(** ** More on pagination *)

(** X9.  A page number below one is no error.  Page [0], like [NaN], is
    falsy and stands for page [1]; a negative page number [K] makes both
    ends of the slice negative, which [slice] counts from the end of the
    set: when the set is long enough, the page is the [P] records that
    stop [-K * P] records short of the end. *)
Theorem page_numbers_below_one (S : list value) (P : Z) :
  1 <= P ->
  let N := Z.of_nat (List.length S) in
  paginate (Some {| current := Some (Int 0); pageSize := Some (Int P) |}) S =
    paginate (Some {| current := Some (Int 1);
                      pageSize := Some (Int P) |}) S /\
  paginate (Some {| current := Some NaN; pageSize := Some (Int P) |}) S =
    paginate (Some {| current := Some (Int 1);
                      pageSize := Some (Int P) |}) S /\
  (forall K, K <= -1 -> (1 - K) * P <= N ->
     data (paginate (Some {| current := Some (Int K);
                             pageSize := Some (Int P) |}) S) =
       firstn (Z.to_nat P) (skipn (Z.to_nat (N - (1 - K) * P)) S)).
Proof.
  intros HP N. split; [reflexivity | split; [reflexivity |]].
  intros K HK Hlong. unfold paginate, or_else. simpl.
  destruct (Z.eqb_spec K 0) as [? | _]; [lia |].
  destruct (Z.eqb_spec P 0) as [? | _]; [lia |].
  simpl. unfold slice, clamp_index, to_integer. fold N.
  destruct (Z.ltb_spec ((K - 1) * P) 0) as [_ | ?]; [| nia].
  destruct (Z.ltb_spec (K * P) 0) as [_ | ?]; [| nia].
  rewrite !Z.max_l by nia.
  replace (N + K * P - (N + (K - 1) * P)) with P by ring.
  replace (N + (K - 1) * P) with (N - (1 - K) * P) by ring.
  reflexivity.
Qed.

Lemma page_numbers_below_one_witness :
  1 <= 1 /\ -1 <= -1 /\
  (1 - -1) * 1 <= Z.of_nat (List.length Sample.people) /\
  data (paginate (Some {| current := Some (Int (-1));
                          pageSize := Some (Int 1) |}) Sample.people) =
    [Sample.ann'].
Proof.
  assert (H1 : 1 <= 1) by lia.
  assert (H2 : -1 <= -1) by lia.
  assert (H3 : (1 - -1) * 1 <= Z.of_nat (List.length Sample.people))
    by (simpl; lia).
  split; [exact H1 | split; [exact H2 | split; [exact H3 |]]].
  exact (proj2 (proj2 (page_numbers_below_one Sample.people 1 H1))
               (-1) H2 H3).
Defined.

(* ================================================================== *)
(** ** More on id allocation *)

Lemma num_eqb_eq (a b : num) : num_eqb a b = true -> a = b.
Proof.
  destruct a as [| x], b as [| y]; simpl; try discriminate.
  intro H. apply Z.eqb_eq in H. congruence.
Qed.

Lemma loose_eq_number (x : value) (n : Z) :
  loose_eq x (VNum (Int n)) = true -> to_number x = Int n.
Proof.
  destruct x as [| | b | m | s | l fs | l es]; try discriminate;
    intro H; apply num_eqb_eq in H; exact H.
Qed.

(** X10.  The id that the default strategy hands out for a collection of
    records whose ids are inside the universe is a positive integer that
    no record has: it exceeds every id that is a number after coercion, be
    it stored as a number or as a string that denotes one, and it is
    loosely equal to no record's id. *)
Theorem allocated_id_is_fresh (st : Store) (resource : string) (l : loc)
  (records : list value) :
  db_get st resource = Fulfilled (Some (VArr l records)) ->
  Forall (fun r => is_record r = true) records ->
  Forall (fun r => in_universe (id_of r) = true) records ->
  exists n,
    biggestIdPlusOneStrategy st resource = Fulfilled (VNum (Int n)) /\
    1 <= n <= 2 ^ 53 /\
    (forall r k, In r records -> id_number r = Int k -> k < n) /\
    (forall r, In r records -> loose_eq (id_of r) (VNum (Int n)) = false).
Proof.
  intros Hget Hrec Huni.
  exists (greatest (numeric_ids records) 0 + 1).
  destruct (greatest_bounds (numeric_ids records) 0) as [H0 Hin].
  pose proof (greatest_id_safe _ Hrec Huni) as Hsafe.
  assert (Hlt : forall r k, In r records -> id_number r = Int k ->
                  k < greatest (numeric_ids records) 0 + 1).
  { intros r k Hr Hk. apply Z.lt_succ_r. apply Hin.
    unfold numeric_ids. apply in_flat_map. exists r. split; [exact Hr |].
    rewrite Hk. left; reflexivity. }
  split; [apply (default_strategy_value _ _ _ _ Hget Hrec Huni) |].
  split; [lia | split; [exact Hlt |]].
  intros r Hr.
  destruct (loose_eq (id_of r) _) eqn:Heq; [| reflexivity].
  apply loose_eq_number in Heq.
  rewrite Forall_forall in Hrec. specialize (Hrec r Hr).
  rewrite <- (id_number_of _ Hrec) in Heq.
  specialize (Hlt r _ Hr Heq). lia.
Qed.

Lemma allocated_id_is_fresh_witness :
  db_get (Sample.holding Sample.posts) "posts" =
    Fulfilled (Some Sample.posts) /\
  Forall (fun r => in_universe (id_of r) = true)
         (object_values Sample.posts) /\
  exists n,
    biggestIdPlusOneStrategy (Sample.holding Sample.posts) "posts" =
      Fulfilled (VNum (Int n)) /\ 1 <= n <= 2 ^ 53.
Proof.
  assert (H1 : db_get (Sample.holding Sample.posts) "posts" =
               Fulfilled (Some Sample.posts)) by reflexivity.
  assert (Hu : Forall (fun r => in_universe (id_of r) = true)
                      (object_values Sample.posts))
    by (repeat constructor).
  split; [exact H1 | split; [exact Hu |]].
  destruct (allocated_id_is_fresh (Sample.holding Sample.posts) "posts"
              _ _ H1 ltac:(repeat constructor) Hu) as (n & Hn & Hpos & _).
  exists n. split; [exact Hn | exact Hpos].
Defined.

(** X11.  The recommended strategy adds [1] to the [id] of the record
    that the database reports last, with [+] and without coercion: a
    numeric id that is a safe integer is incremented, an id stored as a
    string gets the character [1] appended, and a missing id gives
    [NaN]. *)
Theorem indexing_strategy_adds_with_plus
  (last_by_id : string -> settled (option value)) (resource : string)
  (data last : value) (others : list value) :
  last_by_id resource = Fulfilled (Some data) ->
  object_values data = last :: others ->
  is_record last = true ->
  (forall n, id_of last = VNum (Int n) -> safe_integer n = true ->
     biggestIdPlusOneStrategyIndexing last_by_id resource =
       Fulfilled (VNum (Int (n + 1)))) /\
  (forall s, id_of last = VStr s ->
     biggestIdPlusOneStrategyIndexing last_by_id resource =
       Fulfilled (VStr (s ++ "1"))) /\
  (id_of last = VUndef ->
   biggestIdPlusOneStrategyIndexing last_by_id resource =
     Fulfilled (VNum NaN)).
Proof.
  intros Hget Hvals Hrec.
  assert (E : biggestIdPlusOneStrategyIndexing last_by_id resource =
              Fulfilled (js_add (id_of last) (VNum (Int 1)))).
  { unfold biggestIdPlusOneStrategyIndexing, first_value.
    rewrite Hget, Hvals. unfold id_of.
    destruct last; try discriminate; reflexivity. }
  rewrite E. split; [| split].
  - intros n Hid Hsafe. rewrite Hid. unfold js_add. simpl.
    rewrite round_double_small; [reflexivity |].
    apply safe_integer_bound in Hsafe. lia.
  - intros s0 Hid. rewrite Hid. reflexivity.
  - intros Hid. rewrite Hid. reflexivity.
Qed.

Lemma indexing_strategy_adds_with_plus_witness :
  object_values (VObj 0%nat [("7", VObj 32%nat [("id", VStr "7")])]) =
    [VObj 32%nat [("id", VStr "7")]] /\
  biggestIdPlusOneStrategyIndexing
    (fun _ => Fulfilled
                (Some (VObj 0%nat [("7", VObj 32%nat [("id", VStr "7")])])))
    "posts" = Fulfilled (VStr "71").
Proof.
  assert (H : object_values
                (VObj 0%nat [("7", VObj 32%nat [("id", VStr "7")])]) =
              [VObj 32%nat [("id", VStr "7")]]) by reflexivity.
  split; [exact H |].
  exact (proj1 (proj2 (indexing_strategy_adds_with_plus
                         (fun _ => Fulfilled
                            (Some (VObj 0%nat
                                     [("7", VObj 32%nat
                                              [("id", VStr "7")])])))
                         "posts" _ _ _ eq_refl H eq_refl))
               "7" eq_refl).
Defined.

(** X12.  A collection that the database hands over as an object keyed by
    id, not as an array, is read by [getList] through [Object.values]; the
    default id strategy and [getMany] call array methods on it as it
    comes: the strategy rejects with a [TypeError], and [getMany] fulfils
    with [undefined]. *)
Theorem keyed_collections (array_sort : sort_engine)
  (this : FirebaseDataProvider) (resource : string) (l fresh : loc)
  (fields : list (string * value)) (pagination : option Pagination)
  (ids : list value) :
  db_get (database this) resource = Fulfilled (Some (VObj l fields)) ->
  outcome (getList array_sort this resource pagination None None) =
    Completion (Fulfilled (Some (paginate pagination (map snd fields)))) [] /\
  biggestIdPlusOneStrategy (database this) resource = Rejected TypeError /\
  outcome (getMany this fresh resource ids) =
    Completion (Fulfilled None) [TypeError].
Proof.
  intro H. unfold getList, getMany, biggestIdPlusOneStrategy, finish.
  rewrite H. repeat split.
Qed.

Lemma keyed_collections_witness :
  db_get (database (Sample.on (Sample.holding Sample.keyed_posts))) "posts" =
    Fulfilled (Some Sample.keyed_posts) /\
  outcome (getMany (Sample.on (Sample.holding Sample.keyed_posts)) 0%nat
                   "posts" [VNum (Int 1)]) =
    Completion (Fulfilled None) [TypeError].
Proof.
  assert (H : db_get (database (Sample.on
                                  (Sample.holding Sample.keyed_posts)))
                     "posts" = Fulfilled (Some Sample.keyed_posts))
    by reflexivity.
  split; [exact H |].
  exact (proj2 (proj2 (keyed_collections insertion_sort _ "posts" _ 0%nat _
                         None [VNum (Int 1)] H))).
Defined.

(* ================================================================== *)
(** ** [createManyData] *)

Lemma createData_fulfils (this : FirebaseDataProvider) (fresh : loc)
  (resource : string) (variables : value) :
  exists r,
    promise (outcome (createData this fresh resource variables)) =
      Fulfilled r.
Proof.
  unfold createData.
  destruct (getCreateId this (database this) resource);
    apply finish_fulfils.
Qed.

Lemma createData_one_call (this : FirebaseDataProvider) (fresh : loc)
  (resource : string) (variables : value) :
  (List.length (calls (createData this fresh resource variables)) <= 1)%nat.
Proof.
  unfold createData, finish.
  destruct (getCreateId this (database this) resource); simpl;
    [destruct (try_catch _); simpl; lia | lia].
Qed.

Lemma createMany_loop_completes
  (commit : Store -> string -> value -> Store) (strategy : id_strategy)
  (resource : string) (items : list value) (db : Store) (fresh : loc) :
  snd (createMany_loop commit strategy db fresh resource items) = Ok tt /\
  List.length (fst (createMany_loop commit strategy db fresh resource items))
    = List.length items /\
  (List.length
     (flat_map calls
        (fst (createMany_loop commit strategy db fresh resource items)))
   <= List.length items)%nat.
Proof.
  revert db fresh; induction items as [| item rest IH]; intros db fresh;
    [repeat split; simpl; lia |].
  cbn [createMany_loop].
  destruct (createData_fulfils {| database := db; getCreateId := strategy |}
              fresh resource item) as [r Hr].
  pose proof (createData_one_call
                {| database := db; getCreateId := strategy |}
                fresh resource item) as Hone.
  rewrite Hr. cbn [await].
  specialize (IH (after_create commit db
                    (createData {| database := db; getCreateId := strategy |}
                                fresh resource item)) (S fresh)).
  destruct (createMany_loop commit strategy _ (S fresh) resource rest)
    as [rs ending].
  simpl in *. destruct IH as (-> & -> & Hcalls).
  repeat split. rewrite length_app. lia.
Qed.

(** X13.  [createManyData] runs [createData] once for every item, one
    after the other, whatever becomes of each: a create that fails does
    not stop the ones after it, and the promise fulfils with [undefined]
    in every case, so the caller learns neither the new records nor the
    failures.  No more writes are made than there are items. *)
Theorem createMany_runs_every_item
  (commit : Store -> string -> value -> Store)
  (this : FirebaseDataProvider) (fresh : loc) (resource : string)
  (variables : list value) :
  List.length (fst (createMany_loop commit (getCreateId this)
                      (database this) fresh resource variables)) =
    List.length variables /\
  promise (outcome (createManyData commit this fresh resource variables)) =
    Fulfilled None /\
  (List.length (calls (createManyData commit this fresh resource variables))
   <= List.length variables)%nat.
Proof.
  destruct (createMany_loop_completes commit (getCreateId this) resource
              variables (database this) fresh) as (Hend & Hlen & Hcalls).
  unfold createManyData.
  destruct (createMany_loop commit (getCreateId this) (database this) fresh
              resource variables) as [rs ending].
  simpl in *. subst ending. simpl.
  split; [exact Hlen | split; [reflexivity | exact Hcalls]].
Qed.

Lemma numeric_ids_app (a b : list value) :
  numeric_ids (a ++ b) = numeric_ids a ++ numeric_ids b.
Proof. unfold numeric_ids. apply flat_map_app. Qed.

Lemma greatest_app (l : list Z) (a x : Z) :
  greatest (l ++ [x]) a = Z.max (greatest l a) x.
Proof. unfold greatest. rewrite fold_left_app. reflexivity. Qed.

(** X14.  On a database that adds every acknowledged write to the
    collection and acknowledges every write, [createManyData] with the
    default strategy writes the items in their order under consecutive
    ids, the first of them one above the greatest id present (or above
    [0]): the creates, being awaited one by one, do not collide.  The ids
    present are inside the universe, and the ids to hand out stay safe
    integers. *)
Theorem createMany_consecutive_ids
  (commit : Store -> string -> value -> Store) (resource : string) :
  (forall db l records path v,
     db_get db resource = Fulfilled (Some (VArr l records)) ->
     db_get (commit db path v) resource =
       Fulfilled (Some (VArr l (records ++ [v])))) ->
  (forall db path v,
     (forall p x, db_set db p x = Fulfilled tt) ->
     forall p x, db_set (commit db path v) p x = Fulfilled tt) ->
  forall (items : list value) (db : Store) (l : loc)
         (records : list value) (fresh : loc),
    db_get db resource = Fulfilled (Some (VArr l records)) ->
    Forall (fun r => is_record r = true) records ->
    Forall (fun r => in_universe (id_of r) = true) records ->
    greatest (numeric_ids records) 0 + Z.of_nat (List.length items)
      <= 2 ^ 53 - 1 ->
    (forall p x, db_set db p x = Fulfilled tt) ->
    calls (createManyData commit (new_provider db None) fresh resource
                          items) =
      consecutive_writes resource
        (greatest (numeric_ids records) 0 + 1) fresh items.
Proof.
  intros Hgrow Hack.
  assert (G : forall items db l records fresh,
            db_get db resource = Fulfilled (Some (VArr l records)) ->
            Forall (fun r => is_record r = true) records ->
            Forall (fun r => in_universe (id_of r) = true) records ->
            greatest (numeric_ids records) 0 + Z.of_nat (List.length items)
              <= 2 ^ 53 - 1 ->
            (forall p x, db_set db p x = Fulfilled tt) ->
            flat_map calls
              (fst (createMany_loop commit biggestIdPlusOneStrategy db fresh
                      resource items)) =
            consecutive_writes resource
              (greatest (numeric_ids records) 0 + 1) fresh items).
  { induction items as [| item rest IH]; intros db l records fresh
                                                Hget Hrec Huni Hroom Hset;
      [reflexivity |].
    cbn [createMany_loop consecutive_writes].
    pose proof (greatest_id_safe _ Hrec Huni) as Hsafe.
    set (n := greatest (numeric_ids records) 0 + 1).
    set (payload := VObj fresh (set_field "id" (VNum (Int n)) (spread item))).
    set (path := (resource ++ "/" ++ to_string (VNum (Int n)))%string).
    assert (Hrun : createData
                     {| database := db;
                        getCreateId := biggestIdPlusOneStrategy |}
                     fresh resource item =
                   Run (Completion (Fulfilled (Some {| data_of := payload |}))
                                   [])
                       [SetCall path payload]).
    { unfold createData. cbn [getCreateId database].
      rewrite (default_strategy_value _ _ _ _ Hget Hrec Huni).
      fold n. cbv zeta. fold path. fold payload.
      unfold finish. rewrite Hset. reflexivity. }
    rewrite Hrun. cbn [outcome promise await after_create calls].
    assert (Hn : numeric_ids [payload] = [n]).
    { unfold numeric_ids, id_number, payload. simpl.
      rewrite lookup_set_field_same. reflexivity. }
    assert (Hnext : greatest (numeric_ids (records ++ [payload])) 0 = n).
    { rewrite numeric_ids_app, Hn, greatest_app. unfold n. lia. }
    cbn [List.length] in Hroom. rewrite Nat2Z.inj_succ in Hroom.
    specialize (IH (commit db path payload) l (records ++ [payload])
                   (S fresh) (Hgrow _ _ _ _ _ Hget)).
    assert (Hrec' : Forall (fun r => is_record r = true)
                           (records ++ [payload])).
    { apply Forall_app. split; [exact Hrec | repeat constructor]. }
    assert (Huni' : Forall (fun r => in_universe (id_of r) = true)
                           (records ++ [payload])).
    { apply Forall_app. split; [exact Huni |].
      constructor; [| constructor].
      unfold id_of, payload. simpl. rewrite lookup_set_field_same. simpl.
      unfold safe_integer. apply Z.leb_le. unfold n. lia. }
    rewrite Hnext in IH.
    specialize (IH Hrec' Huni' ltac:(unfold n; lia) (Hack _ _ _ Hset)).
    destruct (createMany_loop commit biggestIdPlusOneStrategy
                (commit db path payload) (S fresh) resource rest)
      as [rs ending].
    cbn [fst flat_map calls app] in *. rewrite IH. reflexivity. }
  intros items db l records fresh Hget Hrec Huni Hroom Hset.
  unfold createManyData. cbn [new_provider getCreateId database].
  specialize (G items db l records fresh Hget Hrec Huni Hroom Hset).
  destruct (createMany_loop commit biggestIdPlusOneStrategy db fresh
              resource items) as [rs ending].
  destruct (try_catch _). exact G.
Qed.

Lemma createMany_consecutive_ids_witness :
  db_get (Sample.holding Sample.posts) "posts" =
    Fulfilled (Some Sample.posts) /\
  Forall (fun r => in_universe (id_of r) = true)
         (object_values Sample.posts) /\
  calls (createManyData Growing.commit
           (new_provider (Sample.holding Sample.posts) None) 50%nat "posts"
           [Sample.draft; Sample.draft]) =
    [SetCall "posts/8" (VObj 50%nat [("id", VNum (Int 8));
                                     ("title", VStr "hello")]);
     SetCall "posts/9" (VObj 51%nat [("id", VNum (Int 9));
                                     ("title", VStr "hello")])].
Proof.
  assert (H : db_get (Sample.holding Sample.posts) "posts" =
              Fulfilled (Some Sample.posts)) by reflexivity.
  assert (Hu : Forall (fun r => in_universe (id_of r) = true)
                      (object_values Sample.posts))
    by (repeat constructor).
  split; [exact H | split; [exact Hu |]].
  refine (createMany_consecutive_ids Growing.commit "posts" _ _
            [Sample.draft; Sample.draft] (Sample.holding Sample.posts)
            _ _ 50%nat H _ Hu _ _).
  - intros db l records path v Hget. simpl. rewrite Hget. reflexivity.
  - intros db path v Hset p x. simpl. apply Hset.
  - repeat constructor.
  - vm_compute. discriminate.
  - reflexivity.
Defined.

(* ================================================================== *)
(** ** [getMany] *)

(** X15.  From a collection of records held as an array, [getMany]
    returns, in the collection's order, the records whose [id] is among
    the requested ids under the equality of [includes], which does not
    coerce: a record whose id is a string is not returned for a request
    that lists only numbers. *)
Theorem getMany_matches_ids_without_coercion
  (this : FirebaseDataProvider) (fresh l : loc) (resource : string)
  (ids elems : list value) :
  db_get (database this) resource = Fulfilled (Some (VArr l elems)) ->
  Forall (fun r => is_record r = true) elems ->
  outcome (getMany this fresh resource ids) =
    Completion
      (Fulfilled
         (Some {| data_of :=
                    VArr fresh
                      (List.filter
                         (fun item => existsb (same_value_zero (id_of item))
                                              ids) elems) |})) [] /\
  (forall item s,
     id_of item = VStr s ->
     (forall i, In i ids -> exists n, i = VNum n) ->
     ~ In item (List.filter
                  (fun item => existsb (same_value_zero (id_of item)) ids)
                  elems)).
Proof.
  intros Hget Hrec. split.
  - unfold getMany, finish. rewrite Hget. cbn [await bind].
    rewrite (filterM_pure _
               (fun item => existsb (same_value_zero (id_of item)) ids)).
    + reflexivity.
    + intros item Hin. rewrite Forall_forall in Hrec.
      specialize (Hrec item Hin). unfold id_of.
      destruct item; try discriminate; reflexivity.
  - intros item s Hid Hnum Hin.
    apply filter_In in Hin as [_ Hex].
    apply existsb_exists in Hex as (i & Hi & Heq).
    destruct (Hnum i Hi) as [n ->]. rewrite Hid in Heq. discriminate.
Qed.

Lemma getMany_matches_ids_without_coercion_witness :
  db_get (database (Sample.on (Sample.holding Sample.posts))) "posts" =
    Fulfilled (Some Sample.posts) /\
  outcome (getMany (Sample.on (Sample.holding Sample.posts)) 60%nat "posts"
                   [VNum (Int 7); VNum (Int 1)]) =
    Completion
      (Fulfilled
         (Some {| data_of :=
                    VArr 60%nat [VObj 31%nat [("id", VNum (Int 1))]] |})) [].
Proof.
  assert (H : db_get (database (Sample.on (Sample.holding Sample.posts)))
                     "posts" = Fulfilled (Some Sample.posts)) by reflexivity.
  split; [exact H |].
  exact (proj1 (getMany_matches_ids_without_coercion
                  (Sample.on (Sample.holding Sample.posts)) 60%nat _ "posts"
                  [VNum (Int 7); VNum (Int 1)] _ H
                  ltac:(repeat constructor))).
Defined.

(* ================================================================== *)
(** ** Deleting and updating *)

Lemma promise_all_fulfilled {A} (ps : list (settled A)) :
  Forall (fun p => exists a, p = Fulfilled a) ps ->
  exists r, promise_all ps = Fulfilled r.
Proof.
  induction 1 as [| p t [a ->] _ [r IH]]; simpl; [eauto |].
  rewrite IH. eauto.
Qed.

Lemma deleteData_fulfils (w : Writer) (resource : string) (id : value) :
  promise (write_outcome (deleteData w resource id)) = Fulfilled None.
Proof.
  unfold deleteData, finish_write.
  destruct (db_remove w _) as [[] | e]; reflexivity.
Qed.

(** X16.  [deleteManyData] asks for the removal of every id, in order,
    under the path of the resource and the id; its promise fulfils with
    [undefined] whether the removals succeed or not, the failures going
    into promises that nobody holds. *)
Theorem deleteMany_asks_for_every_removal (w : Writer) (resource : string)
  (ids : list value) :
  write_calls (deleteManyData w resource ids) =
    map (fun id => RemoveCall (resource ++ "/" ++ to_string id)%string) ids /\
  promise (write_outcome (deleteManyData w resource ids)) = Fulfilled None /\
  dropped (write_outcome (deleteManyData w resource ids)) =
    flat_map (fun id =>
                match db_remove w (resource ++ "/" ++ to_string id)%string with
                | Rejected e => [e]
                | Fulfilled _ => []
                end) ids.
Proof.
  unfold deleteManyData.
  destruct (promise_all_fulfilled
              (map (fun r => promise (write_outcome r))
                   (map (deleteData w resource) ids))) as [r Hr].
  { rewrite Forall_forall. intros p Hp.
    apply in_map_iff in Hp as (x & <- & Hx).
    apply in_map_iff in Hx as (id & <- & _).
    rewrite deleteData_fulfils. eauto. }
  rewrite Hr. simpl. rewrite app_nil_r. clear Hr r.
  split; [| split; [reflexivity |]].
  - induction ids as [| id t IH]; [reflexivity |].
    cbn [map flat_map]. rewrite IH.
    unfold deleteData, finish_write.
    destruct (try_catch _); reflexivity.
  - induction ids as [| id t IH]; [reflexivity |].
    cbn [map flat_map]. rewrite IH. f_equal.
    unfold deleteData, finish_write.
    destruct (db_remove w _) as [[] | e]; reflexivity.
Qed.

(** X17.  [updateManyData] asks for the update of every id, in order,
    and fulfils at once with an array of one promise per id; each of
    these fulfils, with the caller's own [variables] as [data] when the
    update went through and with [undefined] when it did not, so that no
    failure shows as a rejection. *)
Theorem updateMany_answers_with_promises (w : Writer) (resource : string)
  (ids : list value) (variables : value) :
  write_calls (updateManyData w resource ids variables) =
    map (fun id =>
           UpdateCall (resource ++ "/" ++ to_string id)%string variables)
        ids /\
  promise (write_outcome (updateManyData w resource ids variables)) =
    Fulfilled
      (Some {| data_promises :=
                 map (fun id =>
                        match db_update w (resource ++ "/" ++ to_string id)
                                        variables with
                        | Fulfilled _ =>
                            Fulfilled (Some {| data_of := variables |})
                        | Rejected _ => Fulfilled None
                        end) ids |}).
Proof.
  unfold updateManyData. cbn [write_calls write_outcome promise]. split.
  - induction ids as [| id t IH]; [reflexivity |].
    cbn [map flat_map]. rewrite IH.
    unfold updateData, finish_write.
    destruct (try_catch _); reflexivity.
  - do 3 f_equal. rewrite map_map. apply map_ext. intro id.
    unfold updateData, finish_write.
    destruct (db_update w _ variables) as [[] | e]; reflexivity.
Qed.

(* ================================================================== *)
(** ** The live provider *)

Lemma unsubscribe_absent (attached : list Listener) (h : nat) :
  ~ In h (map handle attached) -> unsubscribe attached h = attached.
Proof.
  intro H. unfold unsubscribe. apply filter_all.
  intros l Hl. apply negb_true_iff, Nat.eqb_neq. intros <-.
  apply H, in_map, Hl.
Qed.

Lemma prefix_append (p r : string) : String.prefix p (p ++ r) = true.
Proof.
  induction p as [| c p IH]; simpl; [destruct r; reflexivity |].
  destruct (ascii_dec c c) as [_ | N]; [exact IH | congruence].
Qed.

Lemma string_drop_append (p r : string) :
  string_drop (String.length p) (p ++ r) = r.
Proof. induction p as [| c p IH]; simpl; [reflexivity | exact IH]. Qed.

Lemma replace_first_prefix (p replacement r : string) :
  replace_first p replacement (p ++ r) = (replacement ++ r)%string.
Proof.
  assert (U : forall s,
            replace_first p replacement s =
            if String.prefix p s
            then (replacement ++ string_drop (String.length p) s)%string
            else match s with
                 | EmptyString => EmptyString
                 | String c t => String c (replace_first p replacement t)
                 end) by (intro s; destruct s; reflexivity).
  rewrite U, prefix_append, string_drop_append. reflexivity.
Qed.

(** X18.  [subscribe] on the channel ["resources/" ++ r] attaches one
    listener at the path [r], whose event carries the channel and nothing
    of what changed; [unsubscribe] with the handle it returned restores
    the listeners as they were, when the handle was not in use before. *)
Theorem subscribe_then_unsubscribe (attached : list Listener) (fresh : nat)
  (r : string) (types : list string) :
  ~ In fresh (map handle attached) ->
  subscribe attached fresh (SubscribeArgs ("resources/" ++ r) types) =
    Ok (fresh,
        attached ++ [{| handle := fresh;
                        listens_at := r;
                        delivers :=
                          {| event_channel := ("resources/" ++ r)%string |}
                     |}]) /\
  unsubscribe
    (attached ++ [{| handle := fresh;
                     listens_at := r;
                     delivers :=
                       {| event_channel := ("resources/" ++ r)%string |} |}])
    fresh = attached.
Proof.
  intro Hfresh. split.
  { unfold subscribe. rewrite replace_first_prefix. reflexivity. }
  unfold unsubscribe. rewrite filter_app. simpl.
  rewrite Nat.eqb_refl. simpl. rewrite app_nil_r.
  apply (unsubscribe_absent _ _ Hfresh).
Qed.

Lemma subscribe_then_unsubscribe_witness :
  ~ In 1%nat (map handle []) /\
  unsubscribe
    [{| handle := 1%nat;
        listens_at := "posts";
        delivers := {| event_channel := "resources/posts" |} |}]
    1%nat = [].
Proof.
  assert (H : ~ In 1%nat (map handle [])) by (intros []).
  split; [exact H |].
  exact (proj2 (subscribe_then_unsubscribe [] 1%nat "posts" [] H)).
Defined.

(** X19.  The object that [getProvider] of the live provider returns has
    [subscribe] bound under both names.  Handing a subscription's handle
    to its [unsubscribe] therefore throws a [TypeError], for every handle
    and whatever is attached, and detaches nothing; the listener that the
    handle stands for stays attached. *)
Theorem provider_unsubscribe_subscribes (attached : list Listener)
  (fresh : nat) (channel : string) (types : list string) :
  exists h attached',
    live_subscribe live_getProvider attached fresh
                   (SubscribeArgs channel types) = Ok (h, attached') /\
    In h (map handle attached') /\
    (forall next, live_unsubscribe live_getProvider attached' next
                                   (UnsubscribeFn h) = Throw TypeError) /\
    (forall args next,
       live_unsubscribe live_getProvider attached' next args =
       live_subscribe live_getProvider attached' next args).
Proof.
  eexists; eexists. split; [reflexivity |].
  split; [| split; reflexivity].
  rewrite map_app. apply in_or_app. right. left. reflexivity.
Qed.

(* ================================================================== *)
(** ** Exceptions inside [getList]; OR clauses of one and of no child *)

Lemma get_prop_throws (v : value) (k : string) (e : exn) :
  get_prop v k = Throw e -> e = TypeError.
Proof.
  destruct v; simpl; try discriminate; try congruence;
    destruct (k =? "length")%string; discriminate.
Qed.

Lemma walk_throws (path : list string) (v : value) (e : exn) :
  walk v path = Throw e -> e = TypeError.
Proof.
  revert v; induction path as [| f rest IH]; simpl; intros v H;
    [discriminate |].
  destruct (get_prop v f) as [v' | e'] eqn:E; simpl in H.
  - apply (IH _ H).
  - injection H as <-. apply (get_prop_throws _ _ _ E).
Qed.

Lemma includes_throws (c v : value) (e : exn) :
  includes c v = Throw e -> e = TypeError.
Proof. destruct c; simpl; try discriminate; congruence. Qed.

Lemma evaluate_throws (field operator : string) (operand obj : value)
  (e : exn) :
  evaluate field operator operand obj = Throw e -> e = TypeError.
Proof.
  unfold evaluate.
  destruct (walk obj (split_dot field)) as [v | e'] eqn:E; simpl.
  - unfold filterFn.
    repeat match goal with
           | |- context [if ?c then _ else _] => destruct c
           end; try discriminate.
    + apply includes_throws.
    + unfold fmap. destruct (includes operand v) eqn:I; simpl;
        [discriminate |].
      intros [= <-]. apply (includes_throws _ _ _ I).
  - intros [= <-]. apply (walk_throws _ _ _ E).
Qed.

Lemma filterM_throws {A} (f : A -> result bool) (l : list A) (x : A) :
  (forall y e, f y = Throw e -> e = TypeError) ->
  In x l -> f x = Throw TypeError -> filterM f l = Throw TypeError.
Proof.
  intros Hty. induction l as [| a t IH]; simpl; intros Hin Hx;
    [contradiction |].
  destruct (f a) as [b | e] eqn:Ea; simpl.
  - destruct Hin as [-> | Hin]; [congruence |].
    rewrite (IH Hin Hx). reflexivity.
  - rewrite (Hty _ _ Ea). reflexivity.
Qed.

(** X20.  One record is enough to lose the list: when the first clause is
    a comparison on a path of which an earlier segment is [undefined] on
    some record of the collection, [getList] returns none of the records;
    its promise fulfils with [undefined], and the [TypeError] goes into a
    promise that nobody holds. *)
Theorem one_record_voids_the_list (array_sort : sort_engine)
  (this : FirebaseDataProvider) (resource : string)
  (pagination : option Pagination) (sort : option (list CrudSort))
  (field operator : string) (operand : value) (more : list CrudFilter)
  (v r : value) (prefix rest : list string) :
  db_get (database this) resource = Fulfilled (Some v) ->
  In r (object_values v) ->
  (operator =? "or")%string = false ->
  split_dot field = prefix ++ rest -> rest <> [] ->
  walk r prefix = Ok VUndef ->
  outcome (getList array_sort this resource pagination sort
                   (Some (LogicalFilter field operator operand :: more))) =
    Completion (Fulfilled None) [TypeError].
Proof.
  intros Hget Hin Hor Hsplit Hrest Hwalk.
  assert (Hr : evaluate field operator operand r = Throw TypeError).
  { unfold evaluate. rewrite Hsplit, walk_app, Hwalk. simpl.
    rewrite (walk_from_nullish VUndef rest (or_introl eq_refl) Hrest).
    reflexivity. }
  unfold getList, finish, query. rewrite Hget. cbn [await bind].
  cbn [filter_stage forEach filter_step applyFilter]. rewrite Hor.
  rewrite (filterM_throws _ _ r (evaluate_throws field operator operand)
             Hin Hr).
  reflexivity.
Qed.

Lemma one_record_voids_the_list_witness :
  db_get (database (Sample.on
                      (Sample.holding
                         (VArr 0%nat [Sample.bare_meta; Sample.plain]))))
         "posts" =
    Fulfilled (Some (VArr 0%nat [Sample.bare_meta; Sample.plain])) /\
  In Sample.plain
     (object_values (VArr 0%nat [Sample.bare_meta; Sample.plain])) /\
  walk Sample.plain ["meta"] = Ok VUndef /\
  outcome (getList insertion_sort
             (Sample.on (Sample.holding
                           (VArr 0%nat [Sample.bare_meta; Sample.plain])))
             "posts" None None
             (Some [LogicalFilter "meta.flag" "null" VUndef])) =
    Completion (Fulfilled None) [TypeError].
Proof.
  assert (H1 : db_get (database (Sample.on
                      (Sample.holding
                         (VArr 0%nat [Sample.bare_meta; Sample.plain]))))
                 "posts" =
               Fulfilled (Some (VArr 0%nat [Sample.bare_meta; Sample.plain])))
    by reflexivity.
  assert (H2 : In Sample.plain
                 (object_values
                    (VArr 0%nat [Sample.bare_meta; Sample.plain])))
    by (right; left; reflexivity).
  assert (H3 : walk Sample.plain ["meta"] = Ok VUndef) by reflexivity.
  split; [exact H1 | split; [exact H2 | split; [exact H3 |]]].
  refine (one_record_voids_the_list insertion_sort _ "posts" None None
            "meta.flag" "null" VUndef [] _ _ ["meta"] ["flag"]
            H1 H2 eq_refl eq_refl _ H3).
  discriminate.
Defined.

Lemma keep_first_distinct {A} (key : A -> nat) (l : list A) :
  NoDup (map key l) -> keep_first key l = l.
Proof.
  induction l as [| a t IH]; simpl; intro H; [reflexivity |].
  inversion H as [| ? ? Hnot Hnd]; subst.
  rewrite (IH Hnd). f_equal. apply filter_all.
  intros y Hy. apply negb_true_iff. unfold key_eqb.
  apply Nat.eqb_neq. intro E. apply Hnot. rewrite E. apply in_map, Hy.
Qed.

Lemma NoDup_map_filter {A} (key : A -> nat) (p : A -> bool) (l : list A) :
  NoDup (map key l) -> NoDup (map key (List.filter p l)).
Proof.
  induction l as [| a t IH]; simpl; intro H; [constructor |].
  inversion H as [| ? ? Hnot Hnd]; subst.
  destruct (p a); simpl; [constructor |]; try apply IH, Hnd.
  intro Hin. apply Hnot. apply in_map_iff in Hin as (y & Hy & Hin).
  apply filter_In in Hin as [Hin _]. apply in_map_iff. exists y; tauto.
Qed.

(** X21.  On records that live at distinct addresses, an OR clause with a
    single comparison as child does what the comparison does as a clause
    of its own; an OR clause without children selects nothing. *)
Theorem or_of_one_and_of_none (S : list value) (field operator : string)
  (operand : value) :
  Forall (fun r => is_record r = true) S ->
  NoDup (map address S) ->
  (operator =? "or")%string = false ->
  filter_step (Some S)
    (ConditionalFilter [LogicalFilter field operator operand]) =
  filter_step (Some S) (LogicalFilter field operator operand) /\
  filter_step (Some S) (ConditionalFilter []) = Ok (Some []).
Proof.
  intros Hrec Hnd Hor. split; [| reflexivity].
  cbn [filter_step mapM applyFilter]. rewrite Hor.
  destruct (filterM (evaluate field operator operand) S) as [out | e] eqn:E;
    [| reflexivity].
  cbn [bind flat flat_map]. rewrite app_nil_r.
  pose proof (filterM_Ok_filter _ _ _ E) as Hout.
  assert (Hrec' : Forall (fun r => is_record r = true) out).
  { rewrite Forall_forall in *. intros y Hy. apply Hrec.
    apply (filterM_incl _ _ _ E), Hy. }
  rewrite filter_all.
  - rewrite (new_Set_records _ Hrec'), keep_first_distinct; [reflexivity |].
    rewrite Hout. apply NoDup_map_filter, Hnd.
  - rewrite Forall_forall in Hrec'. intros y Hy.
    apply record_truthy, Hrec', Hy.
Qed.

Lemma or_of_one_and_of_none_witness :
  Forall (fun r => is_record r = true) Sample.people /\
  NoDup (map address Sample.people) /\
  filter_step (Some Sample.people)
    (ConditionalFilter [LogicalFilter "age" "gt" (VNum (Int 25))]) =
  filter_step (Some Sample.people)
    (LogicalFilter "age" "gt" (VNum (Int 25))).
Proof.
  assert (H1 : Forall (fun r => is_record r = true) Sample.people)
    by (repeat constructor).
  assert (H2 : NoDup (map address Sample.people)).
  { simpl. repeat constructor; simpl; intuition discriminate. }
  split; [exact H1 | split; [exact H2 |]].
  exact (proj1 (or_of_one_and_of_none Sample.people "age" "gt"
                  (VNum (Int 25)) H1 H2 eq_refl)).
Defined.
